(** * GPIO simulator bridge: line codec, protocol client and front ends

    A shallow embedding of the three front-end variants of the bridge

      - [web_api.py]            (HTTP only, reconnecting client),
      - [server_combined_A.py]  (gRPC and HTTP, one socket each),
      - [server.py]             (gRPC only),

    and the properties their design document states about them.

    Conventions of the embedding.

    - A Python [str] is a Rocq [string]; each [ascii] stands for the code
      point of the same number (0..255).  The protocol lines of the daemon
      are ASCII.
    - A Python [int] is a [Z].  The conversions between integers and
      text, [int_of_str] and [str_of_int], are those of CPython for
      integers of at most 4300 digits; beyond that CPython refuses the
      conversion with a [ValueError] (its default limit), which the
      embedding does not model.
    - The bytes a socket delivers are given as the text they decode to.
      Bytes that are not UTF-8, which [errors="replace"] turns into
      replacement characters in web_api.py and server_combined_A.py
      and on which the strict decode of server.py raises
      [UnicodeDecodeError], have no counterpart.
    - Socket traffic is explicit: a client state carries the socket
      attribute and the log of every socket operation performed, and the
      daemon (with the operating system) is an oracle that answers the
      n-th socket operation.
    - A Python exception is a value of [exn]; a call returns [Ok v] or
      [Raise e]. *)

From Stdlib Require Import String Ascii List ZArith Lia Bool Arith.
From Stdlib Require Import DecimalString DecimalPos.
Import ListNotations.

Local Open Scope string_scope.
Local Open Scope list_scope.

(* ================================================================== *)
(** * Python string primitives used by the sources                     *)
(* ================================================================== *)

Module PyStr.

(** [str.isspace] on one code point below 256: TAB, LF, VT, FF, CR,
    the separators FS, GS, RS, US, the space, NEL and NBSP. *)
Definition isspace (c : ascii) : bool :=
  let n := N_of_ascii c in
  ((9 <=? n) && (n <=? 13) || (28 <=? n) && (n <=? 32)
   || (n =? 133) || (n =? 160))%N.

(** One character of [str.upper].  Only the ASCII letters are mapped:
    the upper-case form of any other code point contains none of the
    letters the sources compare against. *)
Definition upper_char (c : ascii) : ascii :=
  let n := N_of_ascii c in
  if ((97 <=? n) && (n <=? 122))%N then ascii_of_N (n - 32) else c.

Fixpoint upper (s : string) : string :=
  match s with
  | EmptyString => EmptyString
  | String c s' => String (upper_char c) (upper s')
  end.

(** [s.startswith(p)] *)
Definition startswith (s p : string) : bool := String.prefix p s.

(** [s.endswith(p)] for a one-character [p]. *)
Fixpoint endswith_char (s : string) (c : ascii) : bool :=
  match s with
  | EmptyString => false
  | String d EmptyString => Ascii.eqb d c
  | String _ s' => endswith_char s' c
  end.

(** [s[n:]] *)
Fixpoint drop (n : nat) (s : string) : string :=
  match n, s with
  | O, _ => s
  | S _, EmptyString => EmptyString
  | S n', String _ s' => drop n' s'
  end.

Fixpoint lstrip_by (p : ascii -> bool) (s : string) : string :=
  match s with
  | EmptyString => EmptyString
  | String c s' => if p c then lstrip_by p s' else s
  end.

Fixpoint rstrip_by (p : ascii -> bool) (s : string) : string :=
  match s with
  | EmptyString => EmptyString
  | String c s' =>
      match rstrip_by p s' with
      | EmptyString => if p c then EmptyString else String c EmptyString
      | r => String c r
      end
  end.

Definition strip_by (p : ascii -> bool) (s : string) : string :=
  rstrip_by p (lstrip_by p s).

(** [s.strip()] *)
Definition strip (s : string) : string := strip_by isspace s.

Fixpoint mem_char (c : ascii) (chars : string) : bool :=
  match chars with
  | EmptyString => false
  | String d chars' => Ascii.eqb c d || mem_char c chars'
  end.

(** [s.strip(chars)] *)
Definition strip_chars (chars : string) (s : string) : string :=
  strip_by (fun c => mem_char c chars) s.

(** [s.replace(a, b)] for one-character [a] and [b]. *)
Fixpoint replace_char (a b : ascii) (s : string) : string :=
  match s with
  | EmptyString => EmptyString
  | String c s' =>
      String (if Ascii.eqb c a then b else c) (replace_char a b s')
  end.

Definition push_token (tok : string) (toks : list string) : list string :=
  match tok with
  | EmptyString => toks
  | _ => tok :: toks
  end.

(** The scan behind [s.split()]: the token that starts at the head of
    [s] (empty when [s] starts with a separator) and the tokens after
    it. *)
Fixpoint split_scan (s : string) : string * list string :=
  match s with
  | EmptyString => (EmptyString, [])
  | String c s' =>
      let '(tok, toks) := split_scan s' in
      if isspace c then (EmptyString, push_token tok toks)
      else (String c tok, toks)
  end.

(** [s.split()]: the maximal runs of non-whitespace, in order. *)
Definition split (s : string) : list string :=
  let '(tok, toks) := split_scan s in push_token tok toks.

Definition is_digit (c : ascii) : bool :=
  let n := N_of_ascii c in ((48 <=? n) && (n <=? 57))%N.

Definition digit_val (c : ascii) : Z := Z.of_N (N_of_ascii c) - 48.

(** The digits of a decimal literal after its first digit has been
    read, [acc] being the value so far: digits, each optionally
    preceded by a single underscore. *)
Fixpoint int_digits (acc : Z) (s : string) : option Z :=
  match s with
  | EmptyString => Some acc
  | String c s' =>
      if is_digit c then int_digits (10 * acc + digit_val c) s'
      else if Ascii.eqb c "_" then
        match s' with
        | String d s'' =>
            if is_digit d then int_digits (10 * acc + digit_val d) s''
            else None
        | EmptyString => None
        end
      else None
  end.

Definition int_unsigned (s : string) : option Z :=
  match s with
  | String c s' => if is_digit c then int_digits (digit_val c) s' else None
  | EmptyString => None
  end.

(** [int(p)] for a token [p] of [str.split()] (so without white space):
    an optional sign, then decimal digits with optional single
    underscores between them.  [None] stands for [ValueError].  A
    literal of more than 4300 digits, which CPython refuses with the
    same [ValueError], is converted here. *)
Definition int_of_str (p : string) : option Z :=
  match p with
  | String "+" p' => int_unsigned p'
  | String "-" p' => option_map Z.opp (int_unsigned p')
  | _ => int_unsigned p
  end.

(** [str(n)], the text an f-string inserts for [{n}], for an integer of
    at most 4300 digits; CPython raises [ValueError] beyond. *)
Definition str_of_int (n : Z) : string :=
  NilZero.string_of_int (Z.to_int n).

End PyStr.

(* ================================================================== *)
(** * Outcomes of calls                                                 *)
(* ================================================================== *)

(** The operating-system errors a socket operation raises; in Python all
    of them are subclasses of [OSError]. *)
Inductive os_error : Type :=
| BrokenPipeError
| ConnectionResetError
| ConnectionRefusedError
| TimeoutError
| OtherOSError.

(** Exceptions, and the texts they carry.  A text is kept as the data
    its f-string is built from. *)
Inductive exn : Type :=
| OSError (e : os_error)
| ConnectionError (msg : message)
| ValueError (msg : message)
| IndexError
| AssertionError
| AttributeError
| HTTPException (status_code : Z) (detail : message)
with message : Type :=
| CannotConnect (path : string) (last_exc : option exn)
    (* f"Cannot connect to {self.path}: {last_exc}" *)
| EmptyResponse
    (* "Empty response from daemon" *)
| UnexpectedLed (raw : string)
    (* f"Unexpected LED response: {raw!r}" *)
| InvalidLiteral (token : string)
    (* the text of int()'s ValueError *)
| DaemonNotReady (e : exn)
    (* f"daemon not ready: {e}" *)
| StrOf (e : exn)
    (* str(e) *).

(** [isinstance(e, OSError)]: [ConnectionError] is a subclass of
    [OSError]; so this is also the test of the clause
    [except (BrokenPipeError, ConnectionResetError, TimeoutError, OSError)]. *)
Definition is_OSError (e : exn) : bool :=
  match e with
  | OSError _ | ConnectionError _ => true
  | _ => false
  end.

(** [isinstance(e, Exception)] *)
Definition is_Exception (e : exn) : bool := true.

(** What a call comes to: a value, an exception, or no return at all
    (a loop that was still running when its fuel ran out, or a wait for
    a lock that is never released). *)
Inductive result (A : Type) : Type :=
| Ok (v : A)
| Raise (e : exn)
| Unfinished.
Arguments Ok {A} v.
Arguments Raise {A} e.
Arguments Unfinished {A}.

(** The reply messages of the gRPC service:
    [gpio_demo_pb2.SimpleReply(msg=...)] and
    [gpio_demo_pb2.LedState(leds=...)]. *)
Inductive pb2 : Type :=
| PbSimpleReply (msg : string)
| PbLedState (leds : list Z).

(** [1 if v != 0 else 0] *)
Definition led_bit (v : Z) : Z := if (v =? 0)%Z then 0%Z else 1%Z.

(* ================================================================== *)
(** * Programs over one socket client                                   *)
(* ================================================================== *)

(** A socket object is known by the number of the operation that
    opened it. *)
Definition conn : Type := nat.

(** A method body, as the tree of the operations it performs on the
    client's lock, on the attribute that holds the socket, and on
    sockets.  [Connect] stands for the three statements
    [socket.socket(AF_UNIX, SOCK_STREAM)], [settimeout] and [connect]. *)
Inductive prog (A : Type) : Type :=
| Ret (r : result A)
| Lock (k : prog A)
| Unlock (k : prog A)
| GetSock (k : option conn -> prog A)
| SetSock (v : option conn) (k : prog A)
| Connect (k : os_error + conn -> prog A)
| Sendall (c : conn) (data : string) (k : option os_error -> prog A)
| Recv (c : conn) (bufsz : nat) (k : os_error + string -> prog A)
| Close (c : conn) (k : prog A)
| Sleep (ms : nat) (k : prog A).
Arguments Ret {A} r.
Arguments Lock {A} k.
Arguments Unlock {A} k.
Arguments GetSock {A} k.
Arguments SetSock {A} v k.
Arguments Connect {A} k.
Arguments Sendall {A} c data k.
Arguments Recv {A} c bufsz k.
Arguments Close {A} c k.
Arguments Sleep {A} ms k.

(** [p] and then [f] on what [p] comes to, when it comes to something. *)
Fixpoint andthen {A B : Type} (p : prog A) (f : result A -> prog B)
  : prog B :=
  match p with
  | Ret Unfinished => Ret Unfinished
  | Ret r => f r
  | Lock k => Lock (andthen k f)
  | Unlock k => Unlock (andthen k f)
  | GetSock k => GetSock (fun v => andthen (k v) f)
  | SetSock v k => SetSock v (andthen k f)
  | Connect k => Connect (fun a => andthen (k a) f)
  | Sendall c d k => Sendall c d (fun a => andthen (k a) f)
  | Recv c n k => Recv c n (fun a => andthen (k a) f)
  | Close c k => Close c (andthen k f)
  | Sleep ms k => Sleep ms (andthen k f)
  end.

Definition ret {A : Type} (v : A) : prog A := Ret (Ok v).
Definition raise {A : Type} (e : exn) : prog A := Ret (Raise e).

(** Sequencing: an exception of [p] skips [f]. *)
Definition bind {A B : Type} (p : prog A) (f : A -> prog B) : prog B :=
  andthen p (fun r =>
    match r with
    | Ok v => f v
    | Raise e => Ret (Raise e)
    | Unfinished => Ret Unfinished
    end).

Notation "x <- p ;; q" := (bind p (fun x => q))
  (at level 61, p at next level, right associativity).
Notation "p ;; q" := (bind p (fun _ => q))
  (at level 61, right associativity).

(** [try: p  except <handles> as e: h e] *)
Definition try_except {A : Type} (p : prog A) (handles : exn -> bool)
  (h : exn -> prog A) : prog A :=
  andthen p (fun r =>
    match r with
    | Raise e => if handles e then h e else Ret (Raise e)
    | _ => Ret r
    end).

(** [try: p  finally: q] *)
Definition try_finally {A : Type} (p : prog A) (q : prog unit) : prog A :=
  andthen p (fun r =>
    andthen q (fun r' =>
      match r' with
      | Raise e => Ret (Raise e)
      | _ => Ret r
      end)).

(** [with self._lock: p] *)
Definition with_lock {A : Type} (p : prog A) : prog A :=
  Lock (try_finally p (Unlock (ret tt))).

(** [assert v is not None], giving the value. *)
Definition assert_not_None {A : Type} (v : option A) : prog A :=
  match v with
  | Some x => ret x
  | None => raise AssertionError
  end.

(** [self._sock.sendall(data)]: the attribute is read, then used. *)
Definition attr_sendall (data : string) : prog unit :=
  GetSock (fun v =>
    match v with
    | None => raise AttributeError
    | Some c => Sendall c data (fun a =>
                  match a with
                  | Some e => raise (OSError e)
                  | None => ret tt
                  end)
    end).

(** [self._sock.recv(bufsz)] *)
Definition attr_recv (bufsz : nat) : prog string :=
  GetSock (fun v =>
    match v with
    | None => raise AttributeError
    | Some c => Recv c bufsz (fun a =>
                  match a with
                  | inl e => raise (OSError e)
                  | inr resp => ret resp
                  end)
    end).

(** [sock.sendall(data)] and [sock.recv(bufsz)] on a socket at hand. *)
Definition sock_sendall (c : conn) (data : string) : prog unit :=
  Sendall c data (fun a =>
    match a with
    | Some e => raise (OSError e)
    | None => ret tt
    end).

Definition sock_recv (c : conn) (bufsz : nat) : prog string :=
  Recv c bufsz (fun a =>
    match a with
    | inl e => raise (OSError e)
    | inr resp => ret resp
    end).

(** The newline character. *)
Definition LF : ascii := "010"%char.

(** [cmd if cmd.endswith("\n") else cmd + "\n"] *)
Definition with_newline (cmd : string) : string :=
  if PyStr.endswith_char cmd LF then cmd
  else (cmd ++ String LF EmptyString)%string.

(** The [while not data.endswith(b"\n")] loop of [send_cmd], the same
    text in server.py and in server_combined_A.py; [fuel]
    bounds the number of chunks read. *)
Fixpoint recv_line (fuel : nat) (sock : conn) (data : string)
  : prog string :=
  if PyStr.endswith_char data LF then ret data
  else
    match fuel with
    | O => Ret Unfinished
    | S fuel' =>
        chunk <- sock_recv sock 128 ;;
        if String.eqb chunk "" then ret data
        else recv_line fuel' sock (data ++ chunk)%string
    end.

(* ================================================================== *)
(** * One client run alone                                              *)
(* ================================================================== *)

(** The daemon and the operating system, seen from the client: the
    answer to the n-th socket operation (connect, sendall or recv).
    For a connect or a sendall, [Gives _] is success; for a recv it is
    the bytes received, empty when the peer has closed. *)
Inductive answer : Type :=
| Fails (e : os_error)
| Gives (text : string).

Definition daemon : Type := nat -> answer.

Inductive event : Type :=
| EvLock
| EvUnlock
| EvConnect (c : conn) (err : option os_error)
| EvSend (c : conn) (data : string) (err : option os_error)
| EvRecv (c : conn) (bufsz : nat) (got : os_error + string)
| EvClose (c : conn)
| EvSleep (ms : nat).

(** The client object: the attribute [_sock], its lock, the number of
    socket operations performed so far, and their log. *)
Record client : Type := mkClient {
  sock_attr : option conn;
  lock_held : bool;
  ticks : nat;
  log : list event
}.

Definition note (ev : event) (st : client) : client :=
  mkClient (sock_attr st) (lock_held st) (ticks st) (log st ++ [ev]).

Definition tick (st : client) : client :=
  mkClient (sock_attr st) (lock_held st) (S (ticks st)) (log st).

Definition set_sock (v : option conn) (st : client) : client :=
  mkClient v (lock_held st) (ticks st) (log st).

Definition set_lock (b : bool) (st : client) : client :=
  mkClient (sock_attr st) b (ticks st) (log st).

Definition err_of (a : answer) : option os_error :=
  match a with
  | Fails e => Some e
  | Gives _ => None
  end.

Definition connect_answer (n : nat) (a : answer) : os_error + conn :=
  match a with
  | Fails e => inl e
  | Gives _ => inr n
  end.

Definition recv_answer (a : answer) : os_error + string :=
  match a with
  | Fails e => inl e
  | Gives text => inr text
  end.

(** A call run to its end by a single thread.  Waiting for a lock that
    is held never ends. *)
Fixpoint run {A : Type} (w : daemon) (p : prog A) (st : client)
  : result A * client :=
  match p with
  | Ret r => (r, st)
  | Lock k =>
      if lock_held st then (Unfinished, st)
      else run w k (note EvLock (set_lock true st))
  | Unlock k => run w k (note EvUnlock (set_lock false st))
  | GetSock k => run w (k (sock_attr st)) st
  | SetSock v k => run w k (set_sock v st)
  | Connect k =>
      let n := ticks st in
      run w (k (connect_answer n (w n)))
          (note (EvConnect n (err_of (w n))) (tick st))
  | Sendall c d k =>
      let n := ticks st in
      run w (k (err_of (w n))) (note (EvSend c d (err_of (w n))) (tick st))
  | Recv c b k =>
      let n := ticks st in
      run w (k (recv_answer (w n)))
          (note (EvRecv c b (recv_answer (w n))) (tick st))
  | Close c k => run w k (note (EvClose c) st)
  | Sleep ms k => run w k (note (EvSleep ms) st)
  end.

(** What a call adds to the log. *)
Definition events_of {A : Type} (w : daemon) (p : prog A) (st : client)
  : list event :=
  skipn (length (log st)) (log (snd (run w p st))).

(** The lines written to the socket, in order. *)
Fixpoint sent (evs : list event) : list string :=
  match evs with
  | [] => []
  | EvSend _ data _ :: evs' => data :: sent evs'
  | _ :: evs' => sent evs'
  end.

(** The texts read from the socket, in order. *)
Fixpoint received (evs : list event) : list string :=
  match evs with
  | [] => []
  | EvRecv _ _ (inr text) :: evs' => text :: received evs'
  | _ :: evs' => received evs'
  end.

(** The number of attempts to open a socket. *)
Fixpoint attempts (evs : list event) : nat :=
  match evs with
  | [] => 0
  | EvConnect _ _ :: evs' => S (attempts evs')
  | _ :: evs' => attempts evs'
  end.

(** The number of [sendall] calls and of [close] calls. *)
Definition sends (evs : list event) : nat := length (sent evs).

Fixpoint closes (evs : list event) : nat :=
  match evs with
  | [] => 0
  | EvClose _ :: evs' => S (closes evs')
  | _ :: evs' => closes evs'
  end.

(** The sockets an event touches. *)
Definition touches (c : conn) (ev : event) : bool :=
  match ev with
  | EvSend c' _ _ | EvRecv c' _ _ | EvClose c' => Nat.eqb c' c
  | EvConnect c' None => Nat.eqb c' c
  | _ => false
  end.

(** A daemon that answers from a script and then stays silent, so that
    every later operation times out. *)
Definition script (answers : list answer) : daemon :=
  fun n => nth n answers (Fails TimeoutError).

(** A daemon that refuses every operation. *)
Definition refusing : daemon := fun _ => Fails ConnectionRefusedError.

(** A client whose socket attribute is [v], with nothing done yet. *)
Definition fresh (v : option conn) : client := mkClient v false 0 [].

(* ================================================================== *)
(** * web_api.py                                                        *)
(* ================================================================== *)

Module WebApi.
Import PyStr.

Definition SOCK_PATH : string := "/tmp/gpio_sim.sock".
Definition RECV_BUFSZ : nat := 4096.
Definition CONNECT_RETRY : nat := 3.

(** ** class SimClient

    The constructor is not embedded: [_connect_initial] tries one
    connection and, when it fails, closes the socket object it made,
    which never was a connection, and leaves [_sock] at [None].  A
    client after it is a state whose attribute is [None] or a
    connection. *)

(** The [for i in range(CONNECT_RETRY)] loop of [_ensure_conn], over the
    values of [i] still to come.  [time.sleep(0.1 * (i + 1))] is written
    in milliseconds. *)
Fixpoint _ensure_conn_loop (path : string) (range : list nat)
  (last_exc : option exn) : prog unit :=
  match range with
  | [] => raise (ConnectionError (CannotConnect path last_exc))
  | i :: range' =>
      Connect (fun a =>
        match a with
        | inr s => SetSock (Some s) (ret tt)
        | inl e =>
            Sleep (100 * (i + 1))
              (_ensure_conn_loop path range' (Some (OSError e)))
        end)
  end.

Definition _ensure_conn (path : string) : prog unit :=
  GetSock (fun v =>
    match v with
    | Some _ => ret tt
    | None => _ensure_conn_loop path (seq 0 CONNECT_RETRY) None
    end).

(** The [except] clause of [_send_recv_line]. *)
Definition _send_recv_line_retry (path data : string) : prog string :=
  try_finally
    (GetSock (fun v =>
       match v with
       | Some c => Close c (ret tt)
       | None => ret tt
       end))
    (SetSock None (ret tt)) ;;
  _ensure_conn path ;;
  (v <- GetSock (fun v => ret v) ;; assert_not_None v) ;;
  attr_sendall data ;;
  attr_recv RECV_BUFSZ.

Definition _send_recv_line (path line : string) : prog string :=
  with_lock
    (_ensure_conn path ;;
     (v <- GetSock (fun v => ret v) ;; assert_not_None v) ;;
     let cmd := with_newline line in
     let data := cmd in
     resp <- try_except
               (attr_sendall data ;; attr_recv RECV_BUFSZ)
               is_OSError
               (fun _ => _send_recv_line_retry path data) ;;
     if String.eqb resp "" then raise (ConnectionError EmptyResponse)
     else ret (strip resp)).

(** ** Parsers *)

(** The [for p in parts] loop of [parse_led_line], [leds] being the list
    built so far. *)
Fixpoint parse_loop (parts : list string) (leds : list Z) : list Z :=
  match parts with
  | [] => leds
  | p :: parts' =>
      match int_of_str p with
      | Some v => parse_loop parts' (leds ++ [led_bit v])
      | None => parse_loop parts' leds
      end
  end.

(** [parse_led_line]; the result [None] is Python's [None]. *)
Definition parse_led_line (raw : string) : option (list Z) :=
  let s := strip raw in
  if negb (startswith (upper s) "LED") then None
  else
    let rest := strip_chars (String " " (String ":" (String "009" "")))
                            (drop 3 s) in
    let rest := replace_char "," " " rest in
    let parts := filter (fun p => negb (String.eqb p "")) (split rest) in
    let leds := parse_loop parts [] in
    match leds with
    | [] => None
    | _ => Some leds
    end.

(** ** High-level helpers of SimClient *)

Definition get_leds (path : string) : prog (list Z) :=
  raw <- _send_recv_line path "GETLED" ;;
  match parse_led_line raw with
  | None => raise (ValueError (UnexpectedLed raw))
  | Some leds => ret leds
  end.

Definition press (path : string) (index : Z) : prog string :=
  _send_recv_line path ("PRESS " ++ str_of_int index)%string.

Definition release (path : string) (index : Z) : prog string :=
  _send_recv_line path ("RELEASE " ++ str_of_int index)%string.

Definition step (path : string) (times interval_ms : Z) : prog string :=
  _send_recv_line path
    ("STEP " ++ str_of_int times ++ " " ++ str_of_int interval_ms)%string.

(** ** Models and endpoints *)

Record ButtonReq : Type := mkButtonReq {
  index : Z;
  action : string
}.

Record StepReq : Type := mkStepReq {
  times : Z;
  interval_ms : Z
}.

(** The constraints the model classes declare: [Field(ge=0)],
    [Literal["press", "release"]], [Field(ge=1)], [Field(ge=0)]. *)
Definition ButtonReq_valid (req : ButtonReq) : bool :=
  (0 <=? index req)%Z
  && (String.eqb (action req) "press" || String.eqb (action req) "release").

Definition StepReq_valid (req : StepReq) : bool :=
  (1 <=? times req)%Z && (0 <=? interval_ms req)%Z.

Inductive body : Type :=
| SimpleReply (msg : string)
| LedResp (leds : list Z).

(** [assert client is not None] on the module's global. *)
Definition assert_client (client_set : bool) : prog unit :=
  if client_set then ret tt else raise AssertionError.

Definition health (client_set : bool) : prog body :=
  try_except
    (assert_client client_set ;;
     _ <- get_leds SOCK_PATH ;;
     ret (SimpleReply "ok"))
    is_Exception
    (fun e => raise (HTTPException 503 (DaemonNotReady e))).

Definition get_leds_endpoint (client_set : bool) : prog body :=
  try_except
    (assert_client client_set ;;
     leds <- get_leds SOCK_PATH ;;
     ret (LedResp leds))
    is_Exception
    (fun e => raise (HTTPException 502 (StrOf e))).

Definition post_button (client_set : bool) (req : ButtonReq) : prog body :=
  try_except
    (assert_client client_set ;;
     resp <- (if String.eqb (action req) "press"
              then press SOCK_PATH (index req)
              else release SOCK_PATH (index req)) ;;
     ret (SimpleReply resp))
    is_Exception
    (fun e => raise (HTTPException 502 (StrOf e))).

Definition post_step (client_set : bool) (req : StepReq) : prog body :=
  try_except
    (assert_client client_set ;;
     resp <- step SOCK_PATH (times req) (interval_ms req) ;;
     ret (SimpleReply resp))
    is_Exception
    (fun e => raise (HTTPException 502 (StrOf e))).

End WebApi.

(** ** The framework in front of the endpoints of web_api.py

    FastAPI validates the body of a request against the model class of
    the endpoint before it calls the endpoint; a body that fails is
    answered with the framework's validation status and the endpoint is
    not called.  An [HTTPException] raised by an endpoint becomes a
    response of its status; a returned model becomes a 200.  The
    validation status is the framework's, not the repository's.
    Requests are served after [on_startup] has set the global [client],
    which is why the routes pass [true] to the endpoints. *)

Inductive http_response : Type :=
| Response (status : Z) (content : WebApi.body)
| ErrorResponse (status : Z) (detail : option message).

Definition respond (r : result WebApi.body) : option http_response :=
  match r with
  | Ok b => Some (Response 200 b)
  | Raise (HTTPException s d) => Some (ErrorResponse s (Some d))
  | Raise _ => Some (ErrorResponse 500 None)
  | Unfinished => None
  end.

Section Routes.

Variable validation_status : Z.

Definition serve (w : daemon) (p : prog WebApi.body) (st : client)
  : option http_response * client :=
  let '(r, st') := run w p st in (respond r, st').

(** GET /api/health *)
Definition route_health (w : daemon) (st : client) :=
  serve w (WebApi.health true) st.

(** GET /api/leds *)
Definition route_leds (w : daemon) (st : client) :=
  serve w (WebApi.get_leds_endpoint true) st.

(** POST /api/button *)
Definition route_button (w : daemon) (req : WebApi.ButtonReq) (st : client) :=
  if WebApi.ButtonReq_valid req
  then serve w (WebApi.post_button true req) st
  else (Some (ErrorResponse validation_status None), st).

(** POST /api/step *)
Definition route_step (w : daemon) (req : WebApi.StepReq) (st : client) :=
  if WebApi.StepReq_valid req
  then serve w (WebApi.post_step true req) st
  else (Some (ErrorResponse validation_status None), st).

End Routes.

(* ================================================================== *)
(** * server_combined_A.py                                              *)
(* ================================================================== *)

Module CombinedA.
Import PyStr.

Definition SOCK_PATH : string := "/tmp/gpio_sim.sock".

Definition send_cmd (fuel : nat) (sock : conn) (cmd : string)
  : prog string :=
  let cmd := with_newline cmd in
  sock_sendall sock cmd ;;
  data <- recv_line fuel sock "" ;;
  ret (strip data).

(** [send_cmd(self._sock, line)] with the attribute read first; on
    [None] the call of [sendall] raises [AttributeError]. *)
Definition send_cmd_attr (fuel : nat) (line : string) : prog string :=
  GetSock (fun v =>
    match v with
    | Some s => send_cmd fuel s line
    | None => raise AttributeError
    end).

(** [parse_led_line]: the empty list where web_api.py has [None]. *)
Fixpoint parse_loop (parts : list string) (out : list Z) : list Z :=
  match parts with
  | [] => out
  | p :: parts' =>
      match int_of_str p with
      | Some v => parse_loop parts' (out ++ [led_bit v])
      | None => parse_loop parts' out
      end
  end.

Definition parse_led_line (raw : string) : list Z :=
  let s := strip raw in
  if negb (startswith (upper s) "LED") then []
  else
    let rest := strip_chars (String " " (String ":" (String "009" "")))
                            (drop 3 s) in
    let rest := replace_char "," " " rest in
    let parts := filter (fun p => negb (String.eqb p "")) (split rest) in
    parse_loop parts [].

(** ** class GpioDemoServicer: [sock] is [self.sock], opened by the
    constructor and kept for the life of the servicer. *)

Definition Servicer__init__ : prog conn :=
  Connect (fun a =>
    match a with
    | inr s => ret s
    | inl e => raise (OSError e)
    end).

Definition PressButton (fuel : nat) (sock : conn) (idx : Z) : prog pb2 :=
  resp <- send_cmd fuel sock ("PRESS " ++ str_of_int idx)%string ;;
  ret (PbSimpleReply resp).

Definition ReleaseButton (fuel : nat) (sock : conn) (idx : Z) : prog pb2 :=
  resp <- send_cmd fuel sock ("RELEASE " ++ str_of_int idx)%string ;;
  ret (PbSimpleReply resp).

Definition GetLedState (fuel : nat) (sock : conn) : prog pb2 :=
  resp <- send_cmd fuel sock "GETLED" ;;
  let leds := parse_led_line resp in
  ret (PbLedState leds).

(** ** class SimClient *)

Definition _connect : prog unit :=
  Connect (fun a =>
    match a with
    | inr s => SetSock (Some s) (ret tt)
    | inl e => raise (OSError e)
    end).

Definition __init__ : prog unit := _connect.

Definition _send_recv (fuel : nat) (line : string) : prog string :=
  with_lock
    (try_except
       ((v <- GetSock (fun v => ret v) ;; assert_not_None v) ;;
        send_cmd_attr fuel line)
       is_OSError
       (fun _ =>
          try_finally
            (GetSock (fun v =>
               match v with
               | Some c => Close c (ret tt)
               | None => ret tt
               end))
            _connect ;;
          send_cmd_attr fuel line)).

Definition get_leds (fuel : nat) : prog (list Z) :=
  raw <- _send_recv fuel "GETLED" ;;
  match parse_led_line raw with
  | [] => raise (ValueError (UnexpectedLed raw))
  | leds => ret leds
  end.

Definition press (fuel : nat) (idx : Z) : prog string :=
  _send_recv fuel ("PRESS " ++ str_of_int idx)%string.

Definition release (fuel : nat) (idx : Z) : prog string :=
  _send_recv fuel ("RELEASE " ++ str_of_int idx)%string.

Definition step (fuel : nat) (times interval_ms : Z) : prog string :=
  _send_recv fuel
    ("STEP " ++ str_of_int times ++ " " ++ str_of_int interval_ms)%string.

End CombinedA.

(* ================================================================== *)
(** * server.py                                                         *)
(* ================================================================== *)

Module Server.
Import PyStr.

(** [send_cmd]: the command is sent as it is given.  The reply is the
    text that the bytes read decode to; [data.decode("utf-8")] is
    strict here and raises [UnicodeDecodeError] on bytes that are not
    UTF-8, a path that is not modelled. *)
Definition send_cmd (fuel : nat) (sock : conn) (cmd : string)
  : prog string :=
  sock_sendall sock cmd ;;
  data <- recv_line fuel sock "" ;;
  ret (strip data).

(** [list(map(int, parts))]: the first token that is not an integer
    literal raises [ValueError]. *)
Fixpoint map_int (parts : list string) : result (list Z) :=
  match parts with
  | [] => Ok []
  | p :: parts' =>
      match int_of_str p with
      | None => Raise (ValueError (InvalidLiteral p))
      | Some v =>
          match map_int parts' with
          | Ok vs => Ok (v :: vs)
          | other => other
          end
      end
  end.

(** The two lines of [GetLedState] that decode the reply:
    [parts = resp.split()] and
    [leds = list(map(int, parts[1:])) if parts[0] == "LED" else []]. *)
Definition decode_leds (resp : string) : result (list Z) :=
  let parts := split resp in
  match parts with
  | [] => Raise IndexError
  | p0 :: parts1 => if String.eqb p0 "LED" then map_int parts1 else Ok []
  end.

(** ** class GpioDemoServicer, [sock] being [self.sock] *)

Definition PressButton (fuel : nat) (sock : conn) (idx : Z) : prog pb2 :=
  resp <- send_cmd fuel sock ("PRESS " ++ str_of_int idx ++ String LF "")%string ;;
  ret (PbSimpleReply resp).

Definition ReleaseButton (fuel : nat) (sock : conn) (idx : Z) : prog pb2 :=
  resp <- send_cmd fuel sock ("RELEASE " ++ str_of_int idx ++ String LF "")%string ;;
  ret (PbSimpleReply resp).

Definition GetLedState (fuel : nat) (sock : conn) : prog pb2 :=
  resp <- send_cmd fuel sock ("GETLED" ++ String LF "")%string ;;
  leds <- Ret (decode_leds resp) ;;
  ret (PbLedState leds).

End Server.

(* ================================================================== *)
(** * Several threads on one client                                     *)
(* ================================================================== *)

(** The object the threads share: the attribute that holds the socket,
    the thread that holds the lock, the number of socket operations so
    far, and the log of who did what. *)
Record shared : Type := mkShared {
  sh_sock : option conn;
  sh_lock : option nat;
  sh_ticks : nat;
  sh_log : list (nat * event)
}.

Definition sh_note (t : nat) (ev : event) (sh : shared) : shared :=
  mkShared (sh_sock sh) (sh_lock sh) (sh_ticks sh) (sh_log sh ++ [(t, ev)]).

Definition sh_tick (sh : shared) : shared :=
  mkShared (sh_sock sh) (sh_lock sh) (S (sh_ticks sh)) (sh_log sh).

Definition sh_set_sock (v : option conn) (sh : shared) : shared :=
  mkShared v (sh_lock sh) (sh_ticks sh) (sh_log sh).

Definition sh_set_lock (h : option nat) (sh : shared) : shared :=
  mkShared (sh_sock sh) h (sh_ticks sh) (sh_log sh).

(** One operation of thread [t]; [None] when the thread has returned or
    waits for the lock. *)
Definition step_thread {A : Type} (w : daemon) (t : nat) (p : prog A)
  (sh : shared) : option (prog A * shared) :=
  match p with
  | Ret _ => None
  | Lock k =>
      match sh_lock sh with
      | Some _ => None
      | None => Some (k, sh_note t EvLock (sh_set_lock (Some t) sh))
      end
  | Unlock k => Some (k, sh_note t EvUnlock (sh_set_lock None sh))
  | GetSock k => Some (k (sh_sock sh), sh)
  | SetSock v k => Some (k, sh_set_sock v sh)
  | Connect k =>
      let n := sh_ticks sh in
      Some (k (connect_answer n (w n)),
            sh_note t (EvConnect n (err_of (w n))) (sh_tick sh))
  | Sendall c d k =>
      let n := sh_ticks sh in
      Some (k (err_of (w n)), sh_note t (EvSend c d (err_of (w n))) (sh_tick sh))
  | Recv c b k =>
      let n := sh_ticks sh in
      Some (k (recv_answer (w n)),
            sh_note t (EvRecv c b (recv_answer (w n))) (sh_tick sh))
  | Close c k => Some (k, sh_note t (EvClose c) sh)
  | Sleep ms k => Some (k, sh_note t (EvSleep ms) sh)
  end.

Fixpoint set_nth {A : Type} (l : list A) (n : nat) (x : A) : list A :=
  match l, n with
  | [], _ => []
  | _ :: l', O => x :: l'
  | y :: l', S n' => y :: set_nth l' n' x
  end.

(** The threads of [pool] run under the schedule [sched], which names
    the thread that moves next; a thread that cannot move is passed
    over. *)
Fixpoint exec {A : Type} (w : daemon) (sched : list nat)
  (pool : list (prog A)) (sh : shared) : list (prog A) * shared :=
  match sched with
  | [] => (pool, sh)
  | t :: sched' =>
      match nth_error pool t with
      | None => exec w sched' pool sh
      | Some p =>
          match step_thread w t p sh with
          | None => exec w sched' pool sh
          | Some (p', sh') => exec w sched' (set_nth pool t p') sh'
          end
      end
  end.

Definition is_socket_event (ev : event) : bool :=
  match ev with
  | EvConnect _ _ | EvSend _ _ _ | EvRecv _ _ _ | EvClose _ => true
  | EvLock | EvUnlock | EvSleep _ => false
  end.

Definition holds (h : option nat) (t : nat) : bool :=
  match h with
  | Some t' => Nat.eqb t' t
  | None => false
  end.

(** Whether thread [t] may log [ev] when the lock is held by [h]: the
    lock is taken only when free; it is released, and a socket is used,
    only by the holder. *)
Definition allowed (h : option nat) (t : nat) (ev : event) : bool :=
  match ev with
  | EvLock =>
      match h with
      | None => true
      | Some _ => false
      end
  | EvSleep _ => true
  | _ => holds h t
  end.

Definition next_holder (h : option nat) (t : nat) (ev : event) : option nat :=
  match ev with
  | EvLock => Some t
  | EvUnlock => None
  | _ => h
  end.

(** Every socket operation of the log was made by the thread that held
    the lock at that time, [h] being the holder at the start. *)
Fixpoint exclusive_from (h : option nat) (l : list (nat * event)) : bool :=
  match l with
  | [] => true
  | (t, ev) :: l' => allowed h t ev && exclusive_from (next_holder h t ev) l'
  end.


Definition exclusive (l : list (nat * event)) : bool :=
  exclusive_from None l.

Fixpoint remove_nat (t : nat) (l : list nat) : list nat :=
  match l with
  | [] => []
  | x :: l' => if Nat.eqb x t then remove_nat t l' else x :: remove_nat t l'
  end.

(** The threads with an exchange in flight after the log [l]: those
    that have sent a command and have since neither read from a socket,
    nor had a send fail, nor closed a socket, nor released the lock. *)
Definition in_flight_step (acc : list nat) (entry : nat * event) : list nat :=
  let '(t, ev) := entry in
  match ev with
  | EvSend _ _ None => remove_nat t acc ++ [t]
  | EvSend _ _ (Some _) | EvRecv _ _ _ | EvClose _ | EvUnlock =>
      remove_nat t acc
  | _ => acc
  end.

Definition in_flight (l : list (nat * event)) : list nat :=
  fold_left in_flight_step l [].

(** Where a thread is with respect to the lock of its client: [true]
    while it holds it.  A body that is [disciplined false] touches the
    socket and the attribute only between taking the lock and releasing
    it, and does not return while holding it. *)
Inductive disciplined {A : Type} : bool -> prog A -> Prop :=
| d_ret (r : result A) : disciplined false (Ret r)
| d_stuck : disciplined true (Ret Unfinished)
| d_lock k : disciplined true k -> disciplined false (Lock k)
| d_unlock k : disciplined false k -> disciplined true (Unlock k)
| d_getsock k :
    (forall v, disciplined true (k v)) -> disciplined true (GetSock k)
| d_setsock v k : disciplined true k -> disciplined true (SetSock v k)
| d_connect k :
    (forall a, disciplined true (k a)) -> disciplined true (Connect k)
| d_sendall c d k :
    (forall a, disciplined true (k a)) -> disciplined true (Sendall c d k)
| d_recv c b k :
    (forall a, disciplined true (k a)) -> disciplined true (Recv c b k)
| d_close c k : disciplined true k -> disciplined true (Close c k)
| d_sleep h ms k : disciplined h k -> disciplined h (Sleep ms k).

(** A body without operations on the lock. *)
Inductive lockfree {A : Type} : prog A -> Prop :=
| lf_ret (r : result A) : lockfree (Ret r)
| lf_getsock k : (forall v, lockfree (k v)) -> lockfree (GetSock k)
| lf_setsock v k : lockfree k -> lockfree (SetSock v k)
| lf_connect k : (forall a, lockfree (k a)) -> lockfree (Connect k)
| lf_sendall c d k : (forall a, lockfree (k a)) -> lockfree (Sendall c d k)
| lf_recv c b k : (forall a, lockfree (k a)) -> lockfree (Recv c b k)
| lf_close c k : lockfree k -> lockfree (Close c k)
| lf_sleep ms k : lockfree k -> lockfree (Sleep ms k).


(** The start: the lock free, nothing logged. *)
Definition idle (v : option conn) : shared := mkShared v None 0 [].

(** A body all of whose paths end in a return or in an exception. *)
Inductive total {A : Type} : prog A -> Prop :=
| t_ok (v : A) : total (Ret (Ok v))
| t_raise (e : exn) : total (Ret (Raise e))
| t_lock k : total k -> total (Lock k)
| t_unlock k : total k -> total (Unlock k)
| t_getsock k : (forall v, total (k v)) -> total (GetSock k)
| t_setsock v k : total k -> total (SetSock v k)
| t_connect k : (forall a, total (k a)) -> total (Connect k)
| t_sendall c d k : (forall a, total (k a)) -> total (Sendall c d k)
| t_recv c b k : (forall a, total (k a)) -> total (Recv c b k)
| t_close c k : total k -> total (Close c k)
| t_sleep ms k : total k -> total (Sleep ms k).

(* ================================================================== *)
(** * The decoder as the design document words it                       *)
(* ================================================================== *)

Module Spec.
Import PyStr.

(** The integers among the tokens, in order; a token that is not an
    integer literal is passed over. *)
Fixpoint parsed_ints (tokens : list string) : list Z :=
  match tokens with
  | [] => []
  | p :: tokens' =>
      match int_of_str p with
      | Some v => v :: parsed_ints tokens'
      | None => parsed_ints tokens'
      end
  end.

(** Colon, space or tab. *)
Definition punct (c : ascii) : bool :=
  mem_char c (String " " (String ":" (String "009" ""))).

(** decodeLedReply, with the way the text after the prefix is trimmed
    left open: the content must start with LED in any case; the prefix
    is dropped, the rest trimmed, commas become spaces, the text is
    split on white space, the integer tokens are kept and each becomes 1
    if nonzero, else 0.  No value at all is "not a LED reply". *)
Definition decodeLedReply_with (trim : string -> string) (rawLine : string)
  : option (list Z) :=
  let content := strip rawLine in
  if startswith (upper content) "LED" then
    let rest := trim (drop 3 content) in
    let tokens := split (replace_char "," " " rest) in
    match map led_bit (parsed_ints tokens) with
    | [] => None
    | leds => Some leds
    end
  else None.

(** As worded: the colon, space and tab characters that immediately
    follow the prefix are stripped. *)
Definition decodeLedReply : string -> option (list Z) :=
  decodeLedReply_with (lstrip_by punct).

(** With those characters stripped at both ends of the rest. *)
Definition decodeLedReply_both_ends : string -> option (list Z) :=
  decodeLedReply_with (strip_by punct).

(** The two decoders of the repository agree on the line [resp]: both
    say that it is not a LED reply (the decode of server.py by the empty
    list, [parse_led_line] by [None]), or both return the same
    sequence. *)
Definition decoders_agree (resp : string) : Prop :=
  (Server.decode_leds resp = Ok [] /\ WebApi.parse_led_line resp = None) \/
  (exists leds, Server.decode_leds resp = Ok leds /\
                WebApi.parse_led_line resp = Some leds).

End Spec.

(** All the lines a body can write to a socket are [d]. *)
Inductive sends_only {A : Type} (d : string) : prog A -> Prop :=
| so_ret (r : result A) : sends_only d (Ret r)
| so_lock k : sends_only d k -> sends_only d (Lock k)
| so_unlock k : sends_only d k -> sends_only d (Unlock k)
| so_getsock k : (forall v, sends_only d (k v)) -> sends_only d (GetSock k)
| so_setsock v k : sends_only d k -> sends_only d (SetSock v k)
| so_connect k : (forall a, sends_only d (k a)) -> sends_only d (Connect k)
| so_sendall c k :
    (forall a, sends_only d (k a)) -> sends_only d (Sendall c d k)
| so_recv c b k : (forall a, sends_only d (k a)) -> sends_only d (Recv c b k)
| so_close c k : sends_only d k -> sends_only d (Close c k)
| so_sleep ms k : sends_only d k -> sends_only d (Sleep ms k).

(** The log of [_ensure_conn] after the failed attempts [errs], the
    first of them being attempt number [j] and operation number [n]:
    each failure is followed by a sleep of 100 ms times its number. *)
Fixpoint backoff_log (n : nat) (errs : list os_error) (j : nat)
  : list event :=
  match errs with
  | [] => []
  | e :: errs' =>
      EvConnect n (Some e) :: EvSleep (100 * j)
        :: backoff_log (S n) errs' (S j)
  end.

(** The send-then-read exchange on the socket [c]. *)
Definition exchange (c : conn) (data : string) (bufsz : nat) : prog string :=
  sock_sendall c data ;; sock_recv c bufsz.

(* ================================================================== *)
(** * Notions used in the statements                                    *)
(* ================================================================== *)

Import PyStr.

(** Every character of a string satisfies [P]. *)
Fixpoint all_chars (P : ascii -> Prop) (s : string) : Prop :=
  match s with
  | EmptyString => True
  | String c s' => P c /\ all_chars P s'
  end.


(** Any character but the newline. *)
Definition line_char (c : ascii) : Prop := c <> LF.

(** A line that ends in a newline and holds no other one. *)
Definition one_newline (l : string) : Prop :=
  exists body, l = (body ++ String LF "")%string /\ all_chars line_char body.

(** [f] run on what a run came to. *)
Definition after {A B : Type} (w : daemon) (f : result A -> prog B)
  (x : result A * client) : result B * client :=
  match fst x with
  | Unfinished => (Unfinished, snd x)
  | r => run w (f r) (snd x)
  end.

(** The errors of the attempts that fail before the first success,
    among the [k] operations from number [n] on. *)
Fixpoint failed_attempts (w : daemon) (n k : nat) : list os_error :=
  match k with
  | O => []
  | S k' =>
      match w n with
      | Fails e => e :: failed_attempts w (S n) k'
      | Gives _ => []
      end
  end.

(** The exception that [_ensure_conn] has in [last_exc] after the failed
    attempts [errs], [d] being its value before them. *)
Definition last_error (errs : list os_error) (d : option exn) : option exn :=
  match errs with
  | [] => d
  | e :: errs' => Some (OSError (last errs' e))
  end.

(** A client after [k] more socket operations, logged as [evs]. *)
Definition add_events (evs : list event) (k : nat) (st : client) : client :=
  mkClient (sock_attr st) (lock_held st) (k + ticks st) (log st ++ evs).

(** An exception, carried to another result type. *)
Definition other_result {A B : Type} (r : result A) : result B :=
  match r with
  | Raise e => Raise e
  | _ => Unfinished
  end.

(** The last two statements of [_send_recv_line]:
    [if not resp: raise ConnectionError(...)] and the return of the
    stripped text. *)
Definition reply_of (r : result string) : result string :=
  match r with
  | Ok resp =>
      if String.eqb resp "" then Raise (ConnectionError EmptyResponse)
      else Ok (PyStr.strip resp)
  | other => other
  end.

(** These statements, and the release of the lock. *)
Definition finish (x : result string * client) : result string * client :=
  (reply_of (fst x), note EvUnlock (set_lock false (snd x))).

(** No event of [evs] is on the socket [c]. *)
Definition untouched (c : conn) (evs : list event) : bool :=
  forallb (fun ev => negb (touches c ev)) evs.

(** The events of a run, by the shape of the body. *)
Fixpoint trace {A : Type} (w : daemon) (p : prog A) (st : client)
  : list event :=
  match p with
  | Ret _ => []
  | Lock k =>
      if lock_held st then []
      else EvLock :: trace w k (note EvLock (set_lock true st))
  | Unlock k => EvUnlock :: trace w k (note EvUnlock (set_lock false st))
  | GetSock k => trace w (k (sock_attr st)) st
  | SetSock v k => trace w k (set_sock v st)
  | Connect k =>
      let n := ticks st in
      EvConnect n (err_of (w n))
        :: trace w (k (connect_answer n (w n)))
             (note (EvConnect n (err_of (w n))) (tick st))
  | Sendall c d k =>
      let n := ticks st in
      EvSend c d (err_of (w n))
        :: trace w (k (err_of (w n)))
             (note (EvSend c d (err_of (w n))) (tick st))
  | Recv c b k =>
      let n := ticks st in
      EvRecv c b (recv_answer (w n))
        :: trace w (k (recv_answer (w n)))
             (note (EvRecv c b (recv_answer (w n))) (tick st))
  | Close c k => EvClose c :: trace w k (note (EvClose c) st)
  | Sleep ms k => EvSleep ms :: trace w k (note (EvSleep ms) st)
  end.

(** What the framework makes of a call of the Protocol Client that an
    endpoint wraps: [wrap] builds the model from the value, [status] and
    [describe] build the [HTTPException] from the exception. *)
Definition upstream {A : Type} (x : result A * client)
  (wrap : A -> WebApi.body) (status : Z) (describe : exn -> message)
  : option http_response * client :=
  match x with
  | (Ok v, st') => (Some (Response 200 (wrap v)), st')
  | (Raise e, st') => (Some (ErrorResponse status (Some (describe e))), st')
  | (Unfinished, st') => (None, st')
  end.

(** A daemon that accepts two commands and then answers them in the
    order in which they came: first the acknowledgement of PRESS, then
    the LED line. *)
Definition two_replies : daemon :=
  script [Gives ""; Gives "";
          Gives ("OK" ++ String LF ""); Gives ("LED 1 0" ++ String LF "")].

(** An event of a read on the socket [c]. *)
Definition is_recv_on (c : conn) (ev : event) : Prop :=
  exists b got, ev = EvRecv c b got.

(** The release of the lock at the end of [_send_recv]. *)
Definition released {A : Type} (x : result A * client) : result A * client :=
  match fst x with
  | Unfinished => x
  | r => (r, note EvUnlock (set_lock false (snd x)))
  end.

(** A daemon that takes one command and answers it with the line
    [reply]. *)
Definition answers_with (reply : string) : daemon :=
  script [Gives ""; Gives (reply ++ String LF "")].

(** A daemon that takes one command and then closes the connection: the
    read of the client returns no byte. *)
Definition hangs_up : daemon := script [Gives ""; Gives ""].

(** A daemon on which the socket in use is broken: the write on it
    fails, a new connection is accepted and is answered with "OK". *)
Definition breaks_once : daemon :=
  script [Gives ""; Fails BrokenPipeError; Gives ""; Gives "";
          Gives ("OK" ++ String LF "")].

(** The same, with the first new connection refused and the second
    accepted. *)
Definition refuses_once : daemon :=
  script [Gives ""; Fails BrokenPipeError; Fails ConnectionRefusedError;
          Gives ""; Gives ""; Gives ("OK" ++ String LF "")].

(** A client that connected at tick 0 and has done nothing since. *)
Definition connected : client := mkClient (Some 0) false 1 [].

(** The first thing a call does once it has the lock is to write the
    line [l] on the socket [c]. *)
Definition writes_first (evs : list event) (c : conn) (l : string) : Prop :=
  exists err rest, evs = EvLock :: EvSend c l err :: rest.

(** A body that does not return a value without having written the
    line [d] to a socket. *)
Definition writes_before_return {A : Type} (d : string) (p : prog A) : Prop :=
  forall (w : daemon) (st : client) (v : A),
    fst (run w p st) = Ok v -> In d (sent (events_of w p st)).


(** A character that can stand inside a token of an LED line: neither
    white space, nor a colon, nor a comma. *)
Definition token_char (c : ascii) : Prop :=
  isspace c = false /\ Spec.punct c = false /\ c <> ","%char.

(** A token: not empty, made of such characters. *)
Definition token (t : string) : Prop := t <> "" /\ all_chars token_char t.










(** ** The HTTP front end of server_combined_A.py

    The model classes [ButtonReq], [StepReq], [LedResp] and
    [SimpleReply] are declared in server_combined_A.py as in web_api.py,
    field for field; the embedding uses the same records and the same
    [body].  The global that the endpoints assert is [_http_client]. *)

Module CombinedHttp.

Definition health (fuel : nat) (client_set : bool) : prog WebApi.body :=
  try_except
    (WebApi.assert_client client_set ;;
     _ <- CombinedA.get_leds fuel ;;
     ret (WebApi.SimpleReply "ok"))
    is_Exception
    (fun e => raise (HTTPException 503 (StrOf e))).

Definition get_leds (fuel : nat) (client_set : bool) : prog WebApi.body :=
  try_except
    (WebApi.assert_client client_set ;;
     leds <- CombinedA.get_leds fuel ;;
     ret (WebApi.LedResp leds))
    is_Exception
    (fun e => raise (HTTPException 502 (StrOf e))).

Definition post_button (fuel : nat) (client_set : bool)
  (req : WebApi.ButtonReq) : prog WebApi.body :=
  try_except
    (WebApi.assert_client client_set ;;
     resp <- (if String.eqb (WebApi.action req) "press"
              then CombinedA.press fuel (WebApi.index req)
              else CombinedA.release fuel (WebApi.index req)) ;;
     ret (WebApi.SimpleReply resp))
    is_Exception
    (fun e => raise (HTTPException 502 (StrOf e))).

Definition post_step (fuel : nat) (client_set : bool) (req : WebApi.StepReq)
  : prog WebApi.body :=
  try_except
    (WebApi.assert_client client_set ;;
     resp <- CombinedA.step fuel (WebApi.times req) (WebApi.interval_ms req) ;;
     ret (WebApi.SimpleReply resp))
    is_Exception
    (fun e => raise (HTTPException 502 (StrOf e))).

(** The routes, behind the validation of the framework. *)
Definition route_health (fuel : nat) (w : daemon) (st : client) :=
  serve w (health fuel true) st.

Definition route_leds (fuel : nat) (w : daemon) (st : client) :=
  serve w (get_leds fuel true) st.

Definition route_button (validation_status : Z) (fuel : nat) (w : daemon)
  (req : WebApi.ButtonReq) (st : client) :=
  if WebApi.ButtonReq_valid req
  then serve w (post_button fuel true req) st
  else (Some (ErrorResponse validation_status None), st).

Definition route_step (validation_status : Z) (fuel : nat) (w : daemon)
  (req : WebApi.StepReq) (st : client) :=
  if WebApi.StepReq_valid req
  then serve w (post_step fuel true req) st
  else (Some (ErrorResponse validation_status None), st).

End CombinedHttp.

(* ================================================================== *)
(** * Properties                                                        *)
(* ================================================================== *)

(** ** Tokens and trimming *)

Lemma push_token_nonempty (tok : string) (toks : list string) :
  Forall (fun t => t <> "") toks -> Forall (fun t => t <> "") (push_token tok toks).
Proof.
  intros H. destruct tok; simpl; [assumption|].
  constructor; [discriminate | assumption].
Qed.

Lemma split_scan_nonempty (s : string) :
  Forall (fun t => t <> "") (snd (split_scan s)).
Proof.
  induction s as [|c s IH]; simpl; [constructor|].
  destruct (split_scan s) as [tok toks]; simpl in *.
  destruct (isspace c); simpl; [now apply push_token_nonempty | assumption].
Qed.

Lemma split_nonempty (s : string) : Forall (fun t => t <> "") (split s).
Proof.
  unfold split. pose proof (split_scan_nonempty s) as H.
  destruct (split_scan s) as [tok toks]. now apply push_token_nonempty.
Qed.

Lemma filter_nonempty_id (l : list string) :
  Forall (fun t => t <> "") l ->
  filter (fun p => negb (String.eqb p "")) l = l.
Proof.
  induction 1 as [|t l Ht _ IH]; simpl; [reflexivity|].
  destruct (String.eqb_spec t ""); [contradiction|]. simpl. now rewrite IH.
Qed.

Lemma web_parse_loop_spec (parts : list string) (leds : list Z) :
  WebApi.parse_loop parts leds = leds ++ map led_bit (Spec.parsed_ints parts).
Proof.
  revert leds. induction parts as [|p parts IH]; intros leds; simpl.
  - now rewrite app_nil_r.
  - destruct (int_of_str p); simpl; rewrite IH; [now rewrite <- app_assoc | reflexivity].
Qed.

Lemma parse_led_line_both_ends (raw : string) :
  WebApi.parse_led_line raw = Spec.decodeLedReply_both_ends raw.
Proof.
  unfold WebApi.parse_led_line, Spec.decodeLedReply_both_ends, Spec.decodeLedReply_with.
  destruct (startswith (upper (strip raw)) "LED"); cbn [negb]; cbv zeta;
    [|reflexivity].
  rewrite filter_nonempty_id by apply split_nonempty.
  rewrite web_parse_loop_spec. cbn [app].
  change (strip_chars _) with (strip_by Spec.punct).
  now destruct (map led_bit _).
Qed.

Lemma combined_parse_loop_eq (parts : list string) (out : list Z) :
  CombinedA.parse_loop parts out = WebApi.parse_loop parts out.
Proof.
  revert out. induction parts as [|p parts IH]; intros out; simpl; [reflexivity|].
  destruct (int_of_str p); apply IH.
Qed.

Lemma combined_parse_led_line_eq (raw : string) :
  CombinedA.parse_led_line raw =
  match WebApi.parse_led_line raw with Some leds => leds | None => [] end.
Proof.
  unfold CombinedA.parse_led_line, WebApi.parse_led_line.
  destruct (startswith (upper (strip raw)) "LED"); cbn [negb]; cbv zeta;
    [|reflexivity].
  rewrite combined_parse_loop_eq.
  now destruct (WebApi.parse_loop _ _).
Qed.





Section Strip.
Variable q : ascii -> bool.









End Strip.












(** ** Running composed bodies *)

Lemma run_andthen {A B : Type} (w : daemon) (p : prog A)
  (f : result A -> prog B) (st : client) :
  run w (andthen p f) st = after w f (run w p st).
Proof.
  revert st. induction p as [r|k IH|k IH|k IH|v k IH|k IH|c d k IH|c b k IH|c k IH|ms k IH];
    intros st; cbn [andthen run]; auto.
  - now destruct r.
  - now destruct (lock_held st).
Qed.

Lemma run_bind {A B : Type} (w : daemon) (p : prog A) (f : A -> prog B)
  (st : client) :
  run w (bind p f) st =
  match run w p st with
  | (Ok v, st') => run w (f v) st'
  | (Raise e, st') => (Raise e, st')
  | (Unfinished, st') => (Unfinished, st')
  end.
Proof.
  unfold bind. rewrite run_andthen. unfold after.
  now destruct (run w p st) as [[v|e|] st'].
Qed.

Lemma run_try_except {A : Type} (w : daemon) (p : prog A)
  (handles : exn -> bool) (h : exn -> prog A) (st : client) :
  run w (try_except p handles h) st =
  match run w p st with
  | (Raise e, st') => if handles e then run w (h e) st' else (Raise e, st')
  | other => other
  end.
Proof.
  unfold try_except. rewrite run_andthen. unfold after.
  destruct (run w p st) as [[v|e|] st']; cbn; try reflexivity.
  now destruct (handles e).
Qed.

Lemma run_with_lock {A : Type} (w : daemon) (p : prog A) (st : client) :
  lock_held st = false ->
  run w (with_lock p) st =
  match run w p (note EvLock (set_lock true st)) with
  | (Unfinished, st') => (Unfinished, st')
  | (r, st') => (r, note EvUnlock (set_lock false st'))
  end.
Proof.
  intros Hl. unfold with_lock, try_finally. cbn [run]. rewrite Hl.
  rewrite run_andthen. unfold after.
  now destruct (run w p _) as [[v|e|] st'].
Qed.

(** The log only grows. *)
Lemma run_log {A : Type} (w : daemon) (p : prog A) (st : client) :
  log (snd (run w p st)) = log st ++ events_of w p st.
Proof.
  unfold events_of.
  enough (H : exists evs, log (snd (run w p st)) = log st ++ evs).
  { destruct H as [evs ->]. rewrite skipn_app, Nat.sub_diag, skipn_all. reflexivity. }
  revert st. induction p as [r|k IH|k IH|k IH|v k IH|k IH|c d k IH|c b k IH|c k IH|ms k IH];
    intros st; cbn [run].
  - exists []. now rewrite app_nil_r.
  - destruct (lock_held st); [exists []; now rewrite app_nil_r|].
    destruct (IH (note EvLock (set_lock true st))) as [evs ->]. cbn.
    rewrite <- app_assoc. eauto.
  - destruct (IH (note EvUnlock (set_lock false st))) as [evs ->]. cbn.
    rewrite <- app_assoc. eauto.
  - apply IH.
  - destruct (IH (set_sock v st)) as [evs ->]. cbn. eauto.
  - edestruct IH as [evs ->]. cbn. rewrite <- app_assoc. eauto.
  - edestruct IH as [evs ->]. cbn. rewrite <- app_assoc. eauto.
  - edestruct IH as [evs ->]. cbn. rewrite <- app_assoc. eauto.
  - destruct (IH (note (EvClose c) st)) as [evs ->]. cbn. rewrite <- app_assoc. eauto.
  - destruct (IH (note (EvSleep ms) st)) as [evs ->]. cbn. rewrite <- app_assoc. eauto.
Qed.

Lemma events_of_eq {A : Type} (w : daemon) (p : prog A) (st : client)
  (evs : list event) :
  log (snd (run w p st)) = log st ++ evs -> events_of w p st = evs.
Proof.
  intros H. unfold events_of. rewrite H.
  rewrite skipn_app, Nat.sub_diag, skipn_all. reflexivity.
Qed.


Lemma attempts_app (l1 l2 : list event) :
  attempts (l1 ++ l2) = attempts l1 + attempts l2.
Proof.
  induction l1 as [|ev l1 IH]; [reflexivity|].
  destruct ev; cbn; rewrite IH; reflexivity.
Qed.


Lemma last_cons {A : Type} (l : list A) (x d : A) :
  last (x :: l) d = last l x.
Proof.
  revert x d. induction l as [|y l IH]; intros x d; [reflexivity|].
  change (last (x :: y :: l) d) with (last (y :: l) d).
  rewrite IH. symmetry. apply IH.
Qed.

(** The loop of [_ensure_conn], run from any point of its range. *)
Lemma ensure_conn_loop_run (w : daemon) (path : string) (k : nat) :
  forall (j : nat) (last_exc : option exn) (st : client),
    let n := ticks st in
    let errs := failed_attempts w n k in
    run w (WebApi._ensure_conn_loop path (seq j k) last_exc) st =
    if (length errs <? k)%nat
    then (Ok tt,
          mkClient (Some (n + length errs)) (lock_held st)
            (S (n + length errs))
            (log st ++ backoff_log n errs (S j)
               ++ [EvConnect (n + length errs) None]))
    else (Raise (ConnectionError (CannotConnect path (last_error errs last_exc))),
          mkClient (sock_attr st) (lock_held st) (n + k)
            (log st ++ backoff_log n errs (S j))).
Proof.
  induction k as [|k IH]; intros j last_exc st; cbn zeta.
  - cbn. rewrite Nat.add_0_r, app_nil_r. now destruct st.
  - cbn [seq WebApi._ensure_conn_loop run failed_attempts].
    destruct (w (ticks st)) as [e|t] eqn:E; cbn [connect_answer err_of].
    + cbn [run]. rewrite IH. replace (j + 1) with (S j) by lia. cbn [tick note ticks log sock_attr lock_held length].
      change (S (length (failed_attempts w (S (ticks st)) k)) <? S k)%nat
        with (length (failed_attempts w (S (ticks st)) k) <? k)%nat.
      destruct (length (failed_attempts w (S (ticks st)) k) <? k)%nat.
      * f_equal. rewrite <- !Nat.add_succ_comm. f_equal.
        cbn [backoff_log]. rewrite <- !app_assoc. cbn [app].
        reflexivity.
      * f_equal.
        { f_equal. f_equal. f_equal. cbn [last_error].
          destruct (failed_attempts w (S (ticks st)) k) as [|o l];
            [reflexivity|]. cbn [last_error]. now rewrite last_cons. }
        rewrite <- Nat.add_succ_comm. f_equal.
        cbn [backoff_log]. rewrite <- !app_assoc. cbn [app].
        reflexivity.
    + cbn [run length backoff_log app set_sock tick note ticks log sock_attr lock_held].
      change (0 <? S k)%nat with true. cbn iota. now rewrite Nat.add_0_r.
Qed.

Lemma CombinedA_connect_run (w : daemon) (st : client) :
  run w CombinedA._connect st =
  match w (ticks st) with
  | Fails e =>
      (Raise (OSError e),
       note (EvConnect (ticks st) (Some e)) (tick st))
  | Gives _ =>
      (Ok tt,
       set_sock (Some (ticks st)) (note (EvConnect (ticks st) None) (tick st)))
  end.
Proof.
  unfold CombinedA._connect. cbn [run]. now destruct (w (ticks st)).
Qed.

(** C3, at its failing input: against a daemon that refuses every
    connection, [_connect] of server_combined_A.py makes one attempt to
    open the socket, not three, sleeps after none, and raises the error
    of the socket; on the same daemon [_ensure_conn] of web_api.py
    makes three attempts, sleeps 100, 200 and 300 ms after them, and
    raises [ConnectionError].  A caller sees the difference when the
    connection has broken and the daemon refuses the first new
    connection only: [_send_recv_line] of web_api.py connects at its
    second attempt and returns the reply, [_send_recv] of
    server_combined_A.py fails on the refusal. *)
Lemma connect_single_attempt :
  (attempts (events_of refusing CombinedA._connect (fresh None)) = 1 /\
   attempts (events_of refusing CombinedA._connect (fresh None)) <> 3 /\
   fst (run refusing CombinedA._connect (fresh None))
   = Raise (OSError ConnectionRefusedError)) /\
  events_of refusing CombinedA._connect (fresh None)
  = [EvConnect 0 (Some ConnectionRefusedError)] /\
  (events_of refusing (WebApi._ensure_conn WebApi.SOCK_PATH) (fresh None)
   = [EvConnect 0 (Some ConnectionRefusedError); EvSleep 100;
      EvConnect 1 (Some ConnectionRefusedError); EvSleep 200;
      EvConnect 2 (Some ConnectionRefusedError); EvSleep 300] /\
   fst (run refusing (WebApi._ensure_conn WebApi.SOCK_PATH) (fresh None))
   = Raise (ConnectionError
              (CannotConnect WebApi.SOCK_PATH
                 (Some (OSError ConnectionRefusedError))))) /\
  (fst (run refuses_once
          (WebApi._send_recv_line WebApi.SOCK_PATH "PRESS 0") connected)
   = Ok "OK" /\
   attempts (events_of refuses_once
               (WebApi._send_recv_line WebApi.SOCK_PATH "PRESS 0") connected)
   = 2 /\
   fst (run refuses_once (CombinedA._send_recv 1 "PRESS 0") connected)
   = Raise (OSError ConnectionRefusedError) /\
   attempts (events_of refuses_once (CombinedA._send_recv 1 "PRESS 0")
               connected)
   = 1).
Proof. repeat split. vm_compute. discriminate. Qed.


(** ** The exchange on one socket *)

Lemma exchange_run (w : daemon) (c : conn) (data : string) (b : nat)
  (st : client) :
  run w (exchange c data b) st =
  match w (ticks st) with
  | Fails e => (Raise (OSError e), add_events [EvSend c data (Some e)] 1 st)
  | Gives _ =>
      match w (S (ticks st)) with
      | Fails e =>
          (Raise (OSError e),
           add_events [EvSend c data None; EvRecv c b (inl e)] 2 st)
      | Gives resp =>
          (Ok resp,
           add_events [EvSend c data None; EvRecv c b (inr resp)] 2 st)
      end
  end.
Proof.
  unfold exchange, sock_sendall, sock_recv, add_events. cbn.
  destruct (w (ticks st)); cbn; [reflexivity|].
  destruct (w (S (ticks st))); unfold note, tick; cbn;
    rewrite <- app_assoc; reflexivity.
Qed.

Lemma attr_exchange_run (w : daemon) (c : conn) (data : string) (b : nat)
  (st : client) :
  sock_attr st = Some c ->
  run w (attr_sendall data ;; attr_recv b) st = run w (exchange c data b) st.
Proof.
  intros Hs. destruct st as [s l t lg]. cbn in Hs. subst s.
  unfold exchange, sock_sendall, sock_recv, attr_sendall, attr_recv.
  cbn. destruct (w t); cbn; [reflexivity|].
  destruct (w (S t)); reflexivity.
Qed.

Lemma ensure_conn_live (w : daemon) (path : string) (st : client) (c : conn) :
  sock_attr st = Some c -> run w (WebApi._ensure_conn path) st = (Ok tt, st).
Proof. intros Hs. unfold WebApi._ensure_conn. cbn. now rewrite Hs. Qed.

Lemma ensure_conn_result (w : daemon) (path : string) (st : client) :
  (fst (run w (WebApi._ensure_conn path) st) = Ok tt /\
   exists c, sock_attr (snd (run w (WebApi._ensure_conn path) st)) = Some c /\
             (sock_attr st = None -> ticks st <= c)) \/
  (exists m, fst (run w (WebApi._ensure_conn path) st)
             = Raise (ConnectionError m)).
Proof.
  destruct (sock_attr st) as [c|] eqn:Hs.
  - rewrite (ensure_conn_live _ _ _ _ Hs). left. split; [reflexivity|].
    exists c. split; [assumption | discriminate].
  - unfold WebApi._ensure_conn. cbn [run]. rewrite Hs, ensure_conn_loop_run.
    destruct (_ <? _)%nat; cbn [fst snd sock_attr].
    + left. split; [reflexivity|]. eexists. split; [reflexivity|]. intros _. lia.
    + right. eauto.
Qed.

Lemma exchange_cases (w : daemon) (c : conn) (data : string) (b : nat)
  (st : client) :
  (exists resp, fst (run w (exchange c data b) st) = Ok resp) \/
  (exists e, fst (run w (exchange c data b) st) = Raise (OSError e)).
Proof.
  rewrite exchange_run.
  destruct (w (ticks st)) as [e|t]; [right; eexists; reflexivity|].
  destruct (w (S (ticks st))) as [e|resp]; [right | left];
    eexists; reflexivity.
Qed.

Lemma exchange_sock (w : daemon) (c : conn) (data : string) (b : nat)
  (st : client) :
  sock_attr (snd (run w (exchange c data b) st)) = sock_attr st /\
  lock_held (snd (run w (exchange c data b) st)) = lock_held st /\
  ticks st < ticks (snd (run w (exchange c data b) st)).
Proof.
  rewrite exchange_run. destruct (w (ticks st)); [cbn; auto|].
  destruct (w (S (ticks st))); cbn; auto.
Qed.

(** [_send_recv_line] on a client that has a socket and a free lock. *)
Lemma send_recv_line_run (w : daemon) (path line : string) (st : client)
  (c : conn) :
  lock_held st = false -> sock_attr st = Some c ->
  let data := with_newline line in
  let st0 := note EvLock (set_lock true st) in
  run w (WebApi._send_recv_line path line) st =
  match run w (exchange c data WebApi.RECV_BUFSZ) st0 with
  | (Raise _, st1) =>
      let st2 := set_sock None (note (EvClose c) st1) in
      match run w (WebApi._ensure_conn path) st2 with
      | (Ok _, st3) =>
          match sock_attr st3 with
          | Some c' => finish (run w (exchange c' data WebApi.RECV_BUFSZ) st3)
          | None => finish (Raise AssertionError, st3)
          end
      | (other, st3) => finish (other_result other, st3)
      end
  | other => finish other
  end.
Proof.
  intros Hl Hs data st0. unfold WebApi._send_recv_line.
  rewrite run_with_lock by assumption. fold st0 data.
  assert (Hs0 : sock_attr st0 = Some c) by exact Hs.
  rewrite run_bind, (ensure_conn_live _ _ _ _ Hs0).
  rewrite run_bind. cbn [run bind andthen ret]. rewrite Hs0.
  cbn [assert_not_None ret run]. rewrite run_bind, run_try_except.
  rewrite (attr_exchange_run _ _ _ _ _ Hs0).
  pose proof (exchange_sock w c data WebApi.RECV_BUFSZ st0) as (Hs1 & _ & _).
  destruct (exchange_cases w c data WebApi.RECV_BUFSZ st0) as [[resp E]|[e E]];
    destruct (run w (exchange c data WebApi.RECV_BUFSZ) st0) as [r1 st1];
    cbn [fst snd] in *; subst r1.
  - unfold finish, reply_of. cbn [fst snd]. destruct (String.eqb resp ""); reflexivity.
  - cbn [is_OSError]. unfold WebApi._send_recv_line_retry.
    rewrite run_bind. unfold try_finally at 1. cbn [andthen run].
    rewrite Hs1, Hs0. cbn [andthen run ret].
    rewrite run_bind. cbv zeta.
    destruct (ensure_conn_result w path (set_sock None (note (EvClose c) st1)))
      as [[E3 [c' [Hs3 _]]]|[m E3]];
      destruct (run w (WebApi._ensure_conn path) _) as [r3 st3];
      cbn [fst snd] in *; subst r3.
    + rewrite run_bind. cbn [run bind andthen ret]. rewrite Hs3.
      cbn [assert_not_None ret run].
      rewrite (attr_exchange_run _ _ _ _ _ Hs3).
      unfold finish, reply_of.
      destruct (exchange_cases w c' data WebApi.RECV_BUFSZ st3) as [[resp E4]|[e4 E4]];
        destruct (run w (exchange c' data WebApi.RECV_BUFSZ) st3) as [r4 st4];
        cbn [fst snd] in *; subst r4; [|reflexivity].
      destruct (String.eqb resp ""); reflexivity.
    + reflexivity.
Qed.

(** ** Counting in logs *)

Lemma sent_app (l1 l2 : list event) : sent (l1 ++ l2) = sent l1 ++ sent l2.
Proof.
  induction l1 as [|ev l1 IH]; [reflexivity|].
  destruct ev; cbn; rewrite ?IH; reflexivity.
Qed.

Lemma closes_app (l1 l2 : list event) :
  closes (l1 ++ l2) = closes l1 + closes l2.
Proof.
  induction l1 as [|ev l1 IH]; [reflexivity|].
  destruct ev; cbn; rewrite ?IH; reflexivity.
Qed.

Lemma sends_app (l1 l2 : list event) : sends (l1 ++ l2) = sends l1 + sends l2.
Proof. unfold sends. now rewrite sent_app, length_app. Qed.

Lemma untouched_app (c : conn) (l1 l2 : list event) :
  untouched c (l1 ++ l2) = untouched c l1 && untouched c l2.
Proof. apply forallb_app. Qed.

Lemma backoff_log_quiet (c n : nat) (errs : list os_error) (j : nat) :
  sent (backoff_log n errs j) = [] /\
  closes (backoff_log n errs j) = 0 /\
  untouched c (backoff_log n errs j) = true.
Proof.
  revert n j. induction errs as [|e errs IH]; intros n j; cbn; [auto|].
  apply IH.
Qed.

Lemma events_of_exchange (w : daemon) (c : conn) (data : string) (b : nat)
  (st : client) :
  let evs := events_of w (exchange c data b) st in
  sent evs = [data] /\ closes evs = 0 /\
  (forall c', c' <> c -> untouched c' evs = true).
Proof.
  cbn zeta. unfold events_of. rewrite exchange_run.
  destruct (w (ticks st)); [|destruct (w (S (ticks st)))];
    cbn [snd add_events log]; rewrite skipn_app, Nat.sub_diag, skipn_all;
    cbn [skipn app sent closes untouched forallb touches];
    repeat split; intros c' Hc'; apply Nat.eqb_neq in Hc';
    rewrite Nat.eqb_sym, Hc'; reflexivity.
Qed.

(** The events of [_ensure_conn]: attempts and sleeps only, and a socket
    it opens is a new one. *)
Lemma events_of_ensure_conn (w : daemon) (path : string) (st : client)
  (c : conn) :
  c < ticks st ->
  let evs := events_of w (WebApi._ensure_conn path) st in
  sent evs = [] /\ closes evs = 0 /\ untouched c evs = true.
Proof.
  intros Hc. cbn zeta. unfold events_of, WebApi._ensure_conn. cbn [run].
  destruct (sock_attr st).
  - cbn [run snd ret]. rewrite skipn_all. auto.
  - rewrite ensure_conn_loop_run.
    destruct (backoff_log_quiet c (ticks st)
                (failed_attempts w (ticks st) WebApi.CONNECT_RETRY) 1)
      as (Hs & Hcl & Hu).
    destruct (_ <? _)%nat; cbn [snd log];
      rewrite skipn_app, Nat.sub_diag, skipn_all; cbn [skipn app].
    + rewrite sent_app, closes_app, untouched_app, Hs, Hcl, Hu.
      cbn. repeat split.
      replace (_ =? c)%nat with false; [reflexivity|].
      symmetry. apply Nat.eqb_neq. lia.
    + auto.
Qed.

Lemma ensure_conn_ticks (w : daemon) (path : string) (st : client) :
  ticks st <= ticks (snd (run w (WebApi._ensure_conn path) st)) /\
  lock_held (snd (run w (WebApi._ensure_conn path) st)) = lock_held st.
Proof.
  unfold WebApi._ensure_conn. cbn [run]. destruct (sock_attr st).
  - cbn. auto.
  - rewrite ensure_conn_loop_run. destruct (_ <? _)%nat; cbn; split; auto; lia.
Qed.

(** The retry of [_send_recv_line] of web_api.py after a failed first
    exchange. *)
Lemma web_retry_once (w : daemon) (path line : string) (st : client)
  (c : conn) (e : os_error) :
  lock_held st = false -> sock_attr st = Some c -> c < ticks st ->
  let data := with_newline line in
  let st0 := note EvLock (set_lock true st) in
  let first := run w (exchange c data WebApi.RECV_BUFSZ) st0 in
  fst first = Raise (OSError e) ->
  let st2 := set_sock None (note (EvClose c) (snd first)) in
  let again := run w (WebApi._ensure_conn path) st2 in
  let r := fst (run w (WebApi._send_recv_line path line) st) in
  let evs := events_of w (WebApi._send_recv_line path line) st in
  exists post,
    evs = EvLock :: events_of w (exchange c data WebApi.RECV_BUFSZ) st0
            ++ EvClose c :: post /\
    closes evs = 1 /\
    untouched c post = true /\
    sends evs <= 2 /\
    match fst again with
    | Ok _ =>
        exists c', sock_attr (snd again) = Some c' /\ c' <> c /\
          sent post = [data] /\
          match fst (run w (exchange c' data WebApi.RECV_BUFSZ) (snd again)) with
          | Ok resp =>
              r = if String.eqb resp ""
                  then Raise (ConnectionError EmptyResponse)
                  else Ok (PyStr.strip resp)
          | Raise e' => r = Raise e'
          | Unfinished => False
          end
    | Raise e' =>
        r = Raise e' /\ sent post = [] /\ exists m, e' = ConnectionError m
    | Unfinished => False
    end.
Proof.
  intros Hl Hs Hc data st0 first Hfirst st2 again r evs.
  subst r evs.
  set (ev1 := events_of w (exchange c data WebApi.RECV_BUFSZ) st0).
  unfold events_of.
  rewrite (send_recv_line_run w path line st c Hl Hs). fold data st0 first.
  pose proof (run_log w (exchange c data WebApi.RECV_BUFSZ) st0) as Hlog1.
  pose proof (exchange_sock w c data WebApi.RECV_BUFSZ st0) as (_ & _ & Ht1).
  pose proof (events_of_exchange w c data WebApi.RECV_BUFSZ st0) as (Hsent1 & Hcl1 & _).
  fold first in Hlog1, Ht1. cbv zeta in Hsent1, Hcl1.
  fold ev1 in Hlog1, Hsent1, Hcl1. clearbody ev1.
  destruct first as [r1 st1] eqn:Efirst. cbn [fst snd] in *. subst r1.
  cbv zeta. fold st2 again.
  assert (Hc2 : c < ticks st2) by (cbn in *; lia).
  pose proof (run_log w (WebApi._ensure_conn path) st2) as Hlog3.
  pose proof (events_of_ensure_conn w path st2 c Hc2) as (Hsent3 & Hcl3 & Hu3).
  pose proof (ensure_conn_ticks w path st2) as [Ht3 _].
  assert (Hs2 : sock_attr st2 = None) by reflexivity.
  pose proof (ensure_conn_result w path st2) as Hres.
  fold again in Hlog3, Ht3, Hres. cbv zeta in Hsent3, Hcl3, Hu3.
  set (ev3 := events_of w (WebApi._ensure_conn path) st2) in *.
  assert (Hlog2 : log st2 = log st ++ EvLock :: ev1 ++ [EvClose c]).
  { cbn. rewrite Hlog1. cbn. rewrite <- !app_assoc. reflexivity. }
  destruct again as [r3 st3] eqn:Eagain. cbn [fst snd] in *.
  destruct Hres as [[-> [c' [Hs3 Hfresh]]]|[m ->]].
  - rewrite Hs3.
    assert (Hcc : c' <> c) by (specialize (Hfresh Hs2); lia).
    pose proof (run_log w (exchange c' data WebApi.RECV_BUFSZ) st3) as Hlog4.
    pose proof (events_of_exchange w c' data WebApi.RECV_BUFSZ st3) as (Hsent4 & Hcl4 & Hu4).
    pose proof (exchange_cases w c' data WebApi.RECV_BUFSZ st3) as Hcases.
    cbv zeta in Hsent4, Hcl4, Hu4.
    set (ev4 := events_of w (exchange c' data WebApi.RECV_BUFSZ) st3) in *.
    exists (ev3 ++ ev4 ++ [EvUnlock]).
    assert (Hfinal : log (snd (finish (run w (exchange c' data WebApi.RECV_BUFSZ) st3)))
                     = log st ++ EvLock :: ev1 ++ EvClose c :: ev3 ++ ev4 ++ [EvUnlock]).
    { unfold finish. cbn [snd note log set_lock]. rewrite Hlog4, Hlog3, Hlog2.
      rewrite <- !app_assoc. cbn [app]. rewrite <- !app_assoc. reflexivity. }
    rewrite Hfinal, skipn_app, Nat.sub_diag, skipn_all. cbn [skipn app].
    split; [reflexivity|].
    split. { cbn [closes]. rewrite !closes_app. cbn [closes]. rewrite !closes_app.
             rewrite Hcl1, Hcl3, Hcl4. reflexivity. }
    split. { rewrite !untouched_app, Hu3, (Hu4 c) by auto. reflexivity. }
    split. { unfold sends. cbn [sent]. rewrite !sent_app. cbn [sent]. rewrite !sent_app.
             rewrite Hsent1, Hsent3, Hsent4. cbn. lia. }
    exists c'. split; [reflexivity|]. split; [assumption|].
    split. { rewrite !sent_app, Hsent3, Hsent4. reflexivity. }
    unfold finish, reply_of. cbn [fst]. fold st2.
    destruct Hcases as [[resp ->]|[e4 ->]]; reflexivity.
  - exists (ev3 ++ [EvUnlock]).
    assert (Hfinal : log (snd (finish (@other_result unit string (Raise (ConnectionError m)), st3)))
                     = log st ++ EvLock :: ev1 ++ EvClose c :: ev3 ++ [EvUnlock]).
    { unfold finish. cbn [snd note log set_lock]. rewrite Hlog3, Hlog2.
      rewrite <- !app_assoc. cbn [app]. rewrite <- !app_assoc. reflexivity. }
    rewrite Hfinal, skipn_app, Nat.sub_diag, skipn_all. cbn [skipn app].
    split; [reflexivity|].
    split. { cbn [closes]. rewrite !closes_app. cbn [closes]. rewrite !closes_app.
             rewrite Hcl1, Hcl3. reflexivity. }
    split. { rewrite !untouched_app, Hu3. reflexivity. }
    split. { unfold sends. cbn [sent]. rewrite !sent_app. cbn [sent]. rewrite !sent_app.
             rewrite Hsent1, Hsent3. cbn. lia. }
    split; [reflexivity|]. split; [|eauto].
    rewrite !sent_app, Hsent3. reflexivity.
Qed.

(** ** Shapes of bodies *)

Lemma total_andthen {A B : Type} (p : prog A) (f : result A -> prog B) :
  total p -> (forall r, r <> Unfinished -> total (f r)) ->
  total (andthen p f).
Proof.
  intros Hp Hf. induction Hp; cbn [andthen]; try (constructor; auto);
    apply Hf; discriminate.
Qed.

Lemma sends_only_andthen {A B : Type} (d : string) (p : prog A)
  (f : result A -> prog B) :
  sends_only d p -> (forall r, sends_only d (f r)) ->
  sends_only d (andthen p f).
Proof.
  intros Hp Hf. induction Hp; cbn [andthen]; try (constructor; auto).
  destruct r; auto. constructor.
Qed.

Lemma lockfree_andthen {A B : Type} (p : prog A) (f : result A -> prog B) :
  lockfree p -> (forall r, lockfree (f r)) -> lockfree (andthen p f).
Proof.
  intros Hp Hf. induction Hp; cbn [andthen]; try (constructor; auto).
  destruct r; auto. constructor.
Qed.

Lemma disciplined_andthen {A B : Type} (h : bool) (p : prog A)
  (f : result A -> prog B) :
  disciplined h p -> (forall r, disciplined false (f r)) ->
  disciplined h (andthen p f).
Proof.
  intros Hp Hf. induction Hp; cbn [andthen]; try (constructor; auto).
  destruct r; auto. constructor.
Qed.

Lemma disciplined_inside {A B : Type} (p : prog A) (f : result A -> prog B) :
  lockfree p -> (forall r, disciplined true (f r)) ->
  disciplined true (andthen p f).
Proof.
  intros Hp Hf. induction Hp; cbn [andthen]; try (constructor; auto).
  destruct r; auto. constructor.
Qed.

Ltac walk_with tac :=
  repeat first
    [ tac
    | progress unfold bind, ret, raise, try_except, try_finally, with_lock,
        assert_not_None, attr_sendall, attr_recv, sock_sendall, sock_recv
    | progress cbn [andthen is_OSError is_Exception]
    | match goal with
      | |- forall _, _ => intro
      | |- context [match ?x with _ => _ end] => is_var x; destruct x
      | |- context [match ?x with _ => _ end] => destruct x
      end
    | apply lockfree_andthen
    | apply sends_only_andthen
    | constructor ].

Ltac walk := walk_with fail.

Lemma disciplined_with_lock {A : Type} (p : prog A) :
  lockfree p -> disciplined false (with_lock p).
Proof.
  intros Hp. unfold with_lock, try_finally. constructor.
  apply disciplined_inside; [assumption|]. intros r. cbn [andthen ret].
  constructor. destruct r; constructor.
Qed.

Lemma total_with_lock {A : Type} (p : prog A) :
  total p -> total (with_lock p).
Proof.
  intros Hp. unfold with_lock, try_finally. constructor.
  apply total_andthen; [assumption|]. intros r Hr. cbn [andthen ret].
  constructor. destruct r; [constructor | constructor | contradiction].
Qed.

(** A disciplined body that has an end for every answer of the daemon
    comes to its end, with the lock free. *)
Lemma run_total {A : Type} (w : daemon) (p : prog A) (h : bool) :
  disciplined h p -> total p ->
  forall st, lock_held st = h ->
    fst (run w p st) <> Unfinished /\ lock_held (snd (run w p st)) = false.
Proof.
  intros Hd. induction Hd; intros Ht st Hl; inversion Ht; subst; cbn [run];
    try (apply IHHd; auto); try (apply H0; auto).
  - split; [discriminate | assumption].
  - split; [discriminate | assumption].
  - rewrite Hl. apply IHHd; auto.
Qed.

Lemma run_log_trace {A : Type} (w : daemon) (p : prog A) (st : client) :
  log (snd (run w p st)) = log st ++ trace w p st.
Proof.
  revert st. induction p as [r|k IH|k IH|k IH|v k IH|k IH|c d k IH|c b k IH|c k IH|ms k IH];
    intros st; cbn [run trace];
    rewrite ?IH; cbn [note tick set_sock set_lock log];
    rewrite <- ?app_assoc; try reflexivity.
  - now rewrite app_nil_r.
  - destruct (lock_held st); [now rewrite app_nil_r|].
    rewrite IH. cbn. now rewrite <- app_assoc.
Qed.

Lemma events_of_trace {A : Type} (w : daemon) (p : prog A) (st : client) :
  events_of w p st = trace w p st.
Proof. apply events_of_eq, run_log_trace. Qed.

Lemma trace_andthen {A B : Type} (w : daemon) (p : prog A)
  (f : result A -> prog B) (st : client) :
  trace w (andthen p f) st
  = trace w p st
      ++ match fst (run w p st) with
         | Unfinished => []
         | r => trace w (f r) (snd (run w p st))
         end.
Proof.
  revert st. induction p as [r|k IH|k IH|k IH|v k IH|k IH|c d k IH|c b k IH|c k IH|ms k IH];
    intros st; cbn [andthen run trace]; rewrite ?IH; try reflexivity.
  - now destruct r.
  - now destruct (lock_held st).
Qed.

Lemma sends_only_run {A : Type} (w : daemon) (d : string) (p : prog A) :
  sends_only d p ->
  forall st, Forall (eq d) (sent (events_of w p st)).
Proof.
  intros Hp st. rewrite events_of_trace. revert st.
  induction Hp; intros st; cbn [trace sent]; auto.
  destruct (lock_held st); cbn [sent]; auto.
Qed.

(** ** The bodies of web_api.py *)

Ltac open_web :=
  unfold WebApi.health, WebApi.get_leds_endpoint, WebApi.post_button,
    WebApi.post_step, WebApi.assert_client,
    WebApi.get_leds, WebApi.press, WebApi.release, WebApi.step,
    WebApi._send_recv_line, WebApi._send_recv_line_retry,
    WebApi._ensure_conn, WebApi.CONNECT_RETRY;
  cbn [seq WebApi._ensure_conn_loop].

Lemma web_send_recv_line_disciplined (path line : string) :
  disciplined false (WebApi._send_recv_line path line).
Proof.
  unfold WebApi._send_recv_line. apply disciplined_with_lock.
  open_web. walk.
Qed.

Lemma web_send_recv_line_total (path line : string) :
  total (WebApi._send_recv_line path line).
Proof. open_web. walk. Qed.

Lemma web_send_recv_line_sends (path line : string) :
  sends_only (with_newline line) (WebApi._send_recv_line path line).
Proof. open_web. walk. Qed.

Lemma web_get_leds_disciplined (path : string) :
  disciplined false (WebApi.get_leds path).
Proof.
  unfold WebApi.get_leds, bind. apply disciplined_andthen.
  - apply web_send_recv_line_disciplined.
  - intros r. walk.
Qed.

Lemma web_get_leds_total (path : string) : total (WebApi.get_leds path).
Proof.
  unfold WebApi.get_leds, bind. apply total_andthen.
  - apply web_send_recv_line_total.
  - intros r Hr. walk. contradiction.
Qed.

(** ** The lines on the wire *)

Lemma all_chars_app (P : ascii -> Prop) (s1 s2 : string) :
  all_chars P s1 -> all_chars P s2 -> all_chars P (s1 ++ s2)%string.
Proof. induction s1; simpl; intuition. Qed.

Lemma uint_chars (d : Decimal.uint) :
  all_chars line_char (NilEmpty.string_of_uint d).
Proof. induction d; simpl; auto; split; auto; discriminate. Qed.

Lemma str_of_int_chars (n : Z) : all_chars line_char (PyStr.str_of_int n).
Proof.
  unfold PyStr.str_of_int, NilZero.string_of_int, NilZero.string_of_uint.
  destruct (Z.to_int n) as [d|d].
  - destruct d; try apply uint_chars. simpl. split; [discriminate | exact I].
  - split; [discriminate|].
    destruct d; try apply uint_chars. simpl. split; [discriminate | exact I].
Qed.

Lemma endswith_char_no (s : string) (c : ascii) :
  all_chars (fun d => d <> c) s -> PyStr.endswith_char s c = false.
Proof.
  induction s as [|d s IH]; [reflexivity|]. intros [Hd Hs].
  cbn [PyStr.endswith_char]. destruct s; [|auto].
  now apply Ascii.eqb_neq.
Qed.

Lemma endswith_char_snoc (s : string) (c : ascii) :
  PyStr.endswith_char (s ++ String c "") c = true.
Proof.
  induction s as [|d s IH]; cbn [append PyStr.endswith_char].
  - apply Ascii.eqb_refl.
  - destruct (s ++ String c "")%string eqn:E; [|assumption].
    destruct s; discriminate.
Qed.

Lemma with_newline_missing (text : string) :
  PyStr.endswith_char text LF = false ->
  with_newline text = (text ++ String LF "")%string.
Proof. unfold with_newline. now intros ->. Qed.

Lemma with_newline_present (text : string) :
  with_newline (text ++ String LF "") = (text ++ String LF "")%string.
Proof. unfold with_newline. now rewrite endswith_char_snoc. Qed.

Lemma with_newline_line (text : string) :
  all_chars line_char text ->
  with_newline text = (text ++ String LF "")%string.
Proof. intros H. apply with_newline_missing, endswith_char_no, H. Qed.

(** ** The bodies of server_combined_A.py and server.py *)

Lemma recv_line_lockfree (fuel : nat) (c : conn) (data : string) :
  lockfree (recv_line fuel c data).
Proof.
  revert data. induction fuel as [|fuel IH]; intros data; cbn [recv_line];
    destruct (endswith_char data LF); try constructor.
  walk_with ltac:(apply IH).
Qed.

Lemma recv_line_sends (d : string) (fuel : nat) (c : conn) (data : string) :
  sends_only d (recv_line fuel c data).
Proof.
  revert data. induction fuel as [|fuel IH]; intros data; cbn [recv_line];
    destruct (endswith_char data LF); try constructor.
  walk_with ltac:(apply IH).
Qed.

Ltac walk_recv :=
  walk_with ltac:(first [apply recv_line_lockfree | apply recv_line_sends]).


Lemma combined_send_recv_sends (fuel : nat) (line : string) :
  sends_only (with_newline line) (CombinedA._send_recv fuel line).
Proof.
  unfold CombinedA._send_recv, CombinedA.send_cmd_attr, CombinedA._connect,
    CombinedA.send_cmd.
  walk_recv.
Qed.

Lemma append_assoc (s1 s2 s3 : string) :
  ((s1 ++ s2) ++ s3 = s1 ++ (s2 ++ s3))%string.
Proof. induction s1; cbn; congruence. Qed.

Lemma press_line (verb : string) (i : Z) :
  all_chars line_char verb ->
  with_newline (verb ++ str_of_int i)
  = (verb ++ str_of_int i ++ String LF "")%string.
Proof.
  intros Hv. rewrite with_newline_line, append_assoc; [reflexivity|].
  apply all_chars_app; [assumption | apply str_of_int_chars].
Qed.

Lemma step_line (n ms : Z) :
  with_newline ("STEP " ++ str_of_int n ++ " " ++ str_of_int ms)
  = ("STEP " ++ str_of_int n ++ " " ++ str_of_int ms ++ String LF "")%string.
Proof.
  rewrite with_newline_line.
  - now rewrite !append_assoc.
  - apply (all_chars_app _ "STEP "); [repeat split; discriminate|].
    apply all_chars_app; [apply str_of_int_chars|].
    apply (all_chars_app _ " "); [repeat split; discriminate|].
    apply str_of_int_chars.
Qed.

Lemma verb_chars_PRESS : all_chars line_char "PRESS ".
Proof. repeat split; discriminate. Qed.

Lemma verb_chars_RELEASE : all_chars line_char "RELEASE ".
Proof. repeat split; discriminate. Qed.

Lemma web_get_leds_sends (path : string) :
  sends_only ("GETLED" ++ String LF "") (WebApi.get_leds path).
Proof.
  unfold WebApi.get_leds, bind. apply sends_only_andthen.
  - apply (web_send_recv_line_sends path "GETLED").
  - intros r. walk.
Qed.

Lemma combined_get_leds_sends (fuel : nat) :
  sends_only ("GETLED" ++ String LF "") (CombinedA.get_leds fuel).
Proof.
  unfold CombinedA.get_leds, bind. apply sends_only_andthen.
  - apply (combined_send_recv_sends fuel "GETLED").
  - intros r. walk.
Qed.

Lemma web_press_first (w : daemon) (path line : string) (st : client) (c : conn) :
  sock_attr st = Some c -> lock_held st = false ->
  exists err rest,
    events_of w (WebApi._send_recv_line path line) st
    = EvLock :: EvSend c (with_newline line) err :: rest.
Proof.
  intros Hs Hl. destruct st as [s l t lg]. cbn in Hs, Hl. subst s l.
  rewrite events_of_trace. open_web.
  unfold with_lock, try_finally, bind, try_except, attr_sendall, ret,
    assert_not_None.
  cbn -[with_newline]. eauto.
Qed.

Lemma sent_andthen {A B : Type} (w : daemon) (p : prog A)
  (f : result A -> prog B) (st : client) :
  sent (events_of w (andthen p f) st)
  = sent (events_of w p st)
      ++ match fst (run w p st) with
         | Unfinished => []
         | r => sent (events_of w (f r) (snd (run w p st)))
         end.
Proof.
  rewrite !events_of_trace, trace_andthen, sent_app.
  destruct (fst (run w p st)); now rewrite ?events_of_trace.
Qed.

Lemma writes_bind_left {A B : Type} (d : string) (p : prog A)
  (f : A -> prog B) :
  writes_before_return d p -> writes_before_return d (bind p f).
Proof.
  intros Hp w st v H. unfold bind in *. rewrite sent_andthen.
  rewrite run_andthen in H. unfold after in H.
  destruct (fst (run w p st)) as [u|e|] eqn:E; try discriminate H.
  apply in_or_app. left. eapply Hp. eassumption.
Qed.

Lemma writes_bind_right {A B : Type} (d : string) (p : prog A)
  (f : A -> prog B) :
  (forall u, writes_before_return d (f u)) ->
  writes_before_return d (bind p f).
Proof.
  intros Hf w st v H. unfold bind in *. rewrite sent_andthen.
  rewrite run_andthen in H. unfold after in H.
  destruct (fst (run w p st)) as [u|e|] eqn:E; try discriminate H.
  apply in_or_app. right. eapply Hf. eassumption.
Qed.

Lemma writes_try_except {A : Type} (d : string) (p : prog A)
  (handles : exn -> bool) (h : exn -> prog A) :
  writes_before_return d p -> (forall e, writes_before_return d (h e)) ->
  writes_before_return d (try_except p handles h).
Proof.
  intros Hp Hh w st v H. unfold try_except in *. rewrite sent_andthen.
  rewrite run_andthen in H. unfold after in H.
  destruct (fst (run w p st)) as [u|e|] eqn:E; try discriminate H.
  - apply in_or_app. left. eapply Hp. eassumption.
  - destruct (handles e); [|discriminate H].
    apply in_or_app. right. eapply Hh. eassumption.
Qed.

Lemma writes_with_lock {A : Type} (d : string) (p : prog A) :
  writes_before_return d p -> writes_before_return d (with_lock p).
Proof.
  intros Hp w st v H.
  destruct (lock_held st) eqn:Hl.
  - unfold with_lock in H. cbn [run] in H. rewrite Hl in H. discriminate H.
  - rewrite run_with_lock in H by assumption.
    rewrite events_of_trace. unfold with_lock, try_finally. cbn [trace].
    rewrite Hl. cbn [sent]. rewrite trace_andthen, sent_app.
    apply in_or_app. left. rewrite <- events_of_trace.
    destruct (run w p (note EvLock (set_lock true st))) as [[u|e|] st'] eqn:E;
      cbn [fst] in H; try discriminate H.
    apply (Hp w _ u). now rewrite E.
Qed.

Lemma writes_attr_sendall (d : string) :
  writes_before_return d (attr_sendall d).
Proof.
  intros w st v H. rewrite events_of_trace. unfold attr_sendall in *.
  cbn [run trace] in *. destruct (sock_attr st); [|discriminate H].
  cbn [trace sent]. now left.
Qed.

Lemma writes_sock_sendall (c : conn) (d : string) :
  writes_before_return d (sock_sendall c d).
Proof.
  intros w st v H. rewrite events_of_trace. unfold sock_sendall.
  cbn [trace sent]. now left.
Qed.

Lemma web_send_recv_line_writes (path line : string) :
  writes_before_return (with_newline line) (WebApi._send_recv_line path line).
Proof.
  unfold WebApi._send_recv_line. apply writes_with_lock.
  apply writes_bind_right. intros _. apply writes_bind_right. intros _.
  cbv zeta. apply writes_bind_left. apply writes_try_except.
  - apply writes_bind_left, writes_attr_sendall.
  - intros _. unfold WebApi._send_recv_line_retry.
    apply writes_bind_right. intros _. apply writes_bind_right. intros _.
    apply writes_bind_right. intros _.
    apply writes_bind_left, writes_attr_sendall.
Qed.

Lemma combined_send_cmd_writes (fuel : nat) (c : conn) (cmd : string) :
  writes_before_return (with_newline cmd) (CombinedA.send_cmd fuel c cmd).
Proof.
  unfold CombinedA.send_cmd. cbv zeta.
  apply writes_bind_left, writes_sock_sendall.
Qed.

Lemma combined_send_cmd_attr_writes (fuel : nat) (line : string) :
  writes_before_return (with_newline line) (CombinedA.send_cmd_attr fuel line).
Proof.
  intros w st v H. unfold CombinedA.send_cmd_attr in *.
  rewrite events_of_trace. cbn [run trace] in *.
  destruct (sock_attr st) as [c|]; [|discriminate H].
  rewrite <- events_of_trace. now apply (combined_send_cmd_writes fuel c line w st v).
Qed.

Lemma combined_send_recv_writes (fuel : nat) (line : string) :
  writes_before_return (with_newline line) (CombinedA._send_recv fuel line).
Proof.
  unfold CombinedA._send_recv. apply writes_with_lock.
  apply writes_try_except.
  - apply writes_bind_right. intros _. apply combined_send_cmd_attr_writes.
  - intros _. apply writes_bind_right. intros _.
    apply combined_send_cmd_attr_writes.
Qed.

Lemma combined_first (w : daemon) (fuel : nat) (line : string) (st : client)
  (c : conn) :
  sock_attr st = Some c -> lock_held st = false ->
  writes_first (events_of w (CombinedA._send_recv fuel line) st) c
    (with_newline line).
Proof.
  intros Hs Hl. destruct st as [s l t lg]. cbn in Hs, Hl. subst s l.
  rewrite events_of_trace.
  unfold CombinedA._send_recv, CombinedA.send_cmd_attr, CombinedA.send_cmd.
  unfold with_lock, try_finally, bind, try_except, sock_sendall, ret,
    assert_not_None.
  cbn -[with_newline recv_line]. unfold writes_first. eauto.
Qed.

Lemma writes_first_andthen {A B : Type} (w : daemon) (p : prog A)
  (f : result A -> prog B) (st : client) (c : conn) (l : string) :
  writes_first (events_of w p st) c l ->
  writes_first (events_of w (andthen p f) st) c l.
Proof.
  intros (err & rest & H). rewrite events_of_trace in H.
  rewrite events_of_trace, trace_andthen, H. cbn [app]. unfold writes_first. eauto.
Qed.

(** A body that can write no line at all: whatever line is named, it
    writes no other. *)
Lemma sends_nothing {A : Type} (w : daemon) (p : prog A) (st : client) :
  (forall d, sends_only d p) -> sent (events_of w p st) = [].
Proof.
  intros H.
  pose proof (sends_only_run w "a" p (H "a") st) as Ha.
  pose proof (sends_only_run w "b" p (H "b") st) as Hb.
  destruct (sent (events_of w p st)) as [|x l]; [reflexivity|].
  inversion Ha; inversion Hb; subst. discriminate.
Qed.

Lemma send_cmd_sent (w : daemon) (fuel : nat) (sock : conn) (text : string)
  (st : client) :
  sent (events_of w (CombinedA.send_cmd fuel sock text) st)
  = [with_newline text].
Proof.
  rewrite events_of_trace. unfold CombinedA.send_cmd, sock_sendall, bind.
  cbn [andthen trace sent]. f_equal. rewrite <- events_of_trace.
  apply sends_nothing. intros d.
  destruct (err_of (w (ticks st))); unfold bind; walk_recv.
Qed.

(** C7: for every index i >= 0 (and every n, ms), [press], [release],
    [get_leds] and [step] of web_api.py and of server_combined_A.py
    write the line "PRESS i\n", "RELEASE i\n", "GETLED\n" and
    "STEP n ms\n": every line the call writes is that line; on a live
    connection the first thing the call does with the lock is to write
    it; and no call returns a value without having written it.  The
    same holds of [_send_recv_line], [_send_recv] and [send_cmd] for
    any text of the caller, the line being the text with a newline
    appended only when it lacks one, never a second time.  Each of the
    four lines ends in a newline and holds no other, and the lines of
    press and release differ in the verb only. *)
Theorem wire_lines (w : daemon) (st : client) (path : string) (fuel : nat)
  (i n ms : Z) :
  (0 <= i)%Z ->
  let PRESS := ("PRESS " ++ str_of_int i ++ String LF "")%string in
  let RELEASE := ("RELEASE " ++ str_of_int i ++ String LF "")%string in
  let GETLED := ("GETLED" ++ String LF "")%string in
  let STEP :=
    ("STEP " ++ str_of_int n ++ " " ++ str_of_int ms ++ String LF "")%string in
  (Forall (eq PRESS) (sent (events_of w (WebApi.press path i) st)) /\
   Forall (eq RELEASE) (sent (events_of w (WebApi.release path i) st)) /\
   Forall (eq GETLED) (sent (events_of w (WebApi.get_leds path) st)) /\
   Forall (eq STEP) (sent (events_of w (WebApi.step path n ms) st))) /\
  (Forall (eq PRESS) (sent (events_of w (CombinedA.press fuel i) st)) /\
   Forall (eq RELEASE) (sent (events_of w (CombinedA.release fuel i) st)) /\
   Forall (eq GETLED) (sent (events_of w (CombinedA.get_leds fuel) st)) /\
   Forall (eq STEP) (sent (events_of w (CombinedA.step fuel n ms) st))) /\
  (forall c, sock_attr st = Some c -> lock_held st = false ->
     exists err rest,
       events_of w (WebApi.press path i) st = EvLock :: EvSend c PRESS err :: rest) /\
  (one_newline PRESS /\ one_newline RELEASE /\ one_newline GETLED /\
   one_newline STEP) /\
  (forall text, endswith_char text LF = false ->
     with_newline text = (text ++ String LF "")%string) /\
  (forall text,
     with_newline (text ++ String LF "") = (text ++ String LF "")%string) /\
  (exists tail, PRESS = ("PRESS" ++ tail)%string /\
                RELEASE = ("RELEASE" ++ tail)%string) /\
  (* on a live connection each call first writes its line *)
  (forall c, sock_attr st = Some c -> lock_held st = false ->
     (writes_first (events_of w (WebApi.press path i) st) c PRESS /\
      writes_first (events_of w (WebApi.release path i) st) c RELEASE /\
      writes_first (events_of w (WebApi.get_leds path) st) c GETLED /\
      writes_first (events_of w (WebApi.step path n ms) st) c STEP) /\
     (writes_first (events_of w (CombinedA.press fuel i) st) c PRESS /\
      writes_first (events_of w (CombinedA.release fuel i) st) c RELEASE /\
      writes_first (events_of w (CombinedA.get_leds fuel) st) c GETLED /\
      writes_first (events_of w (CombinedA.step fuel n ms) st) c STEP)) /\
  (* no call returns a value without having written its line *)
  (writes_before_return PRESS (WebApi.press path i) /\
   writes_before_return RELEASE (WebApi.release path i) /\
   writes_before_return GETLED (WebApi.get_leds path) /\
   writes_before_return STEP (WebApi.step path n ms)) /\
  (writes_before_return PRESS (CombinedA.press fuel i) /\
   writes_before_return RELEASE (CombinedA.release fuel i) /\
   writes_before_return GETLED (CombinedA.get_leds fuel) /\
   writes_before_return STEP (CombinedA.step fuel n ms)) /\
  (* the same for any text of the caller *)
  (forall text,
     let line := with_newline text in
     (Forall (eq line)
        (sent (events_of w (WebApi._send_recv_line path text) st)) /\
      Forall (eq line)
        (sent (events_of w (CombinedA._send_recv fuel text) st)) /\
      forall sock,
        sent (events_of w (CombinedA.send_cmd fuel sock text) st) = [line]) /\
     (forall c, sock_attr st = Some c -> lock_held st = false ->
        writes_first (events_of w (WebApi._send_recv_line path text) st)
          c line /\
        writes_first (events_of w (CombinedA._send_recv fuel text) st)
          c line) /\
     (writes_before_return line (WebApi._send_recv_line path text) /\
      writes_before_return line (CombinedA._send_recv fuel text) /\
      forall sock,
        writes_before_return line (CombinedA.send_cmd fuel sock text))).
Proof.
  intros Hi PRESS RELEASE GETLED STEP.
  assert (HP : with_newline ("PRESS " ++ str_of_int i) = PRESS)
    by apply (press_line "PRESS " i verb_chars_PRESS).
  assert (HR : with_newline ("RELEASE " ++ str_of_int i) = RELEASE)
    by apply (press_line "RELEASE " i verb_chars_RELEASE).
  assert (HS : with_newline ("STEP " ++ str_of_int n ++ " " ++ str_of_int ms) = STEP)
    by apply step_line.
  split; [|split; [|split; [|split; [|split; [|split; [|split;
    [|split; [|split; [|split]]]]]]]]].
  - repeat split.
    + rewrite <- HP. apply sends_only_run, web_send_recv_line_sends.
    + rewrite <- HR. apply sends_only_run, web_send_recv_line_sends.
    + apply sends_only_run, web_get_leds_sends.
    + rewrite <- HS. apply sends_only_run, web_send_recv_line_sends.
  - repeat split.
    + rewrite <- HP. apply sends_only_run, combined_send_recv_sends.
    + rewrite <- HR. apply sends_only_run, combined_send_recv_sends.
    + apply sends_only_run, combined_get_leds_sends.
    + rewrite <- HS. apply sends_only_run, combined_send_recv_sends.
  - intros c Hs Hl. rewrite <- HP. now apply web_press_first.
  - repeat split.
    + exists ("PRESS " ++ str_of_int i)%string. split; [reflexivity|].
      apply all_chars_app; [apply verb_chars_PRESS | apply str_of_int_chars].
    + exists ("RELEASE " ++ str_of_int i)%string. split; [reflexivity|].
      apply all_chars_app; [apply verb_chars_RELEASE | apply str_of_int_chars].
    + exists "GETLED". split; [reflexivity | repeat split; discriminate].
    + exists ("STEP " ++ str_of_int n ++ " " ++ str_of_int ms)%string.
      split.
      * subst STEP. now rewrite !append_assoc.
      * apply (all_chars_app _ "STEP "); [repeat split; discriminate|].
        apply all_chars_app; [apply str_of_int_chars|].
        apply (all_chars_app _ " "); [repeat split; discriminate|].
        apply str_of_int_chars.
  - apply with_newline_missing.
  - apply with_newline_present.
  - exists (" " ++ str_of_int i ++ String LF "")%string. split; reflexivity.
  - intros c Hs Hl. split; [split; [|split; [|split]] | split; [|split; [|split]]].
    + rewrite <- HP. now apply web_press_first.
    + rewrite <- HR. now apply web_press_first.
    + unfold WebApi.get_leds, bind. apply writes_first_andthen.
      now apply (web_press_first w path "GETLED").
    + rewrite <- HS. now apply web_press_first.
    + rewrite <- HP. now apply combined_first.
    + rewrite <- HR. now apply combined_first.
    + unfold CombinedA.get_leds, bind. apply writes_first_andthen.
      now apply (combined_first w fuel "GETLED").
    + rewrite <- HS. now apply combined_first.
  - split; [|split; [|split]].
    + rewrite <- HP. apply web_send_recv_line_writes.
    + rewrite <- HR. apply web_send_recv_line_writes.
    + apply writes_bind_left. apply (web_send_recv_line_writes path "GETLED").
    + rewrite <- HS. apply web_send_recv_line_writes.
  - split; [|split; [|split]].
    + rewrite <- HP. apply combined_send_recv_writes.
    + rewrite <- HR. apply combined_send_recv_writes.
    + apply writes_bind_left. apply (combined_send_recv_writes fuel "GETLED").
    + rewrite <- HS. apply combined_send_recv_writes.
  - intros text line. split; [split; [|split] | split; [|split; [|split]]].
    + apply sends_only_run, web_send_recv_line_sends.
    + apply sends_only_run, combined_send_recv_sends.
    + intros sock. apply send_cmd_sent.
    + intros c Hs Hl. split;
        [now apply web_press_first | now apply combined_first].
    + apply web_send_recv_line_writes.
    + apply combined_send_recv_writes.
    + intros sock. apply combined_send_cmd_writes.
Qed.

(** ** The HTTP endpoints *)

Lemma serve_wrapped {A : Type} (w : daemon) (p : prog A) (st : client)
  (wrap : A -> WebApi.body) (status : Z) (describe : exn -> message) :
  serve w
    (try_except (WebApi.assert_client true ;; v <- p ;; ret (wrap v))
       is_Exception
       (fun e => raise (HTTPException status (describe e)))) st
  = upstream (run w p st) wrap status describe.
Proof.
  unfold serve, upstream. rewrite run_try_except, run_bind.
  cbn [WebApi.assert_client run ret]. rewrite run_bind.
  destruct (run w p st) as [[v|e|] st']; reflexivity.
Qed.

Lemma web_call_returns {A : Type} (w : daemon) (p : prog A) (st : client) :
  disciplined false p -> total p -> lock_held st = false ->
  fst (run w p st) <> Unfinished.
Proof. intros Hd Ht Hl. now apply (run_total w p false Hd Ht st). Qed.

(** C9: the health endpoint calls [get_leds] and answers 200 "ok"
    exactly when the call returns, and 503 with the description of the
    failure when it raises; the other endpoints answer 502 with the
    description when the call of the client raises; and a request of
    invalid shape (index < 0, unknown action, times < 1,
    interval_ms < 0) is answered by the validation status of the
    framework, a 4xx, with the state of the client, its log included,
    unchanged.  With the lock free, every call of the client returns or
    raises. *)
Theorem http_status_codes (validation_status : Z) (w : daemon) (st : client) :
  (400 <= validation_status < 500)%Z ->
  lock_held st = false ->
  (* health: 200 exactly when getLedState succeeds, else 503 *)
  (route_health w st
   = upstream (run w (WebApi.get_leds WebApi.SOCK_PATH) st)
       (fun _ => WebApi.SimpleReply "ok") 503 DaemonNotReady /\
   fst (run w (WebApi.get_leds WebApi.SOCK_PATH) st) <> Unfinished) /\
  (* the other endpoints: 502 when the call of the client fails *)
  (route_leds w st
   = upstream (run w (WebApi.get_leds WebApi.SOCK_PATH) st)
       WebApi.LedResp 502 StrOf) /\
  (forall req, WebApi.ButtonReq_valid req = true ->
     let call := if String.eqb (WebApi.action req) "press"
                 then WebApi.press WebApi.SOCK_PATH (WebApi.index req)
                 else WebApi.release WebApi.SOCK_PATH (WebApi.index req) in
     route_button validation_status w req st
     = upstream (run w call st) WebApi.SimpleReply 502 StrOf /\
     fst (run w call st) <> Unfinished) /\
  (forall req, WebApi.StepReq_valid req = true ->
     let call := WebApi.step WebApi.SOCK_PATH (WebApi.times req)
                   (WebApi.interval_ms req) in
     route_step validation_status w req st
     = upstream (run w call st) WebApi.SimpleReply 502 StrOf /\
     fst (run w call st) <> Unfinished) /\
  (* a request of invalid shape: a 4xx, and the client is not contacted *)
  (forall req,
     (WebApi.index req < 0)%Z \/
     (WebApi.action req <> "press" /\ WebApi.action req <> "release") ->
     route_button validation_status w req st
     = (Some (ErrorResponse validation_status None), st)) /\
  (forall req,
     (WebApi.times req < 1)%Z \/ (WebApi.interval_ms req < 0)%Z ->
     route_step validation_status w req st
     = (Some (ErrorResponse validation_status None), st)).
Proof.
  intros _ Hl.
  assert (Hret : forall line,
             fst (run w (WebApi._send_recv_line WebApi.SOCK_PATH line) st)
             <> Unfinished).
  { intros line. apply web_call_returns;
      [apply web_send_recv_line_disciplined
      | apply web_send_recv_line_total | assumption]. }
  split; [split|].
  { apply serve_wrapped. }
  { apply web_call_returns;
      [apply web_get_leds_disciplined | apply web_get_leds_total | assumption]. }
  split. { apply serve_wrapped. }
  split.
  { intros req Hv call. split.
    - unfold route_button. rewrite Hv. apply serve_wrapped.
    - subst call. destruct (String.eqb _ _); apply Hret. }
  split.
  { intros req Hv call. split.
    - unfold route_step. rewrite Hv. apply serve_wrapped.
    - apply Hret. }
  split.
  { intros req H. unfold route_button, WebApi.ButtonReq_valid.
    destruct H as [H|[H1 H2]].
    - apply Z.leb_gt in H. now rewrite H.
    - apply String.eqb_neq in H1, H2. rewrite H1, H2.
      now rewrite andb_false_r. }
  intros req H. unfold route_step, WebApi.StepReq_valid.
  destruct H as [H|H]; apply Z.leb_gt in H; rewrite H;
    [reflexivity | now rewrite andb_false_r].
Qed.

(** ** The LED reply decoders *)






(** [get_leds] of web_api.py raises when the reply is not a LED reply. *)
Lemma web_get_leds_not_applicable (w : daemon) (path : string) (st : client)
  (raw : string) :
  fst (run w (WebApi._send_recv_line path "GETLED") st) = Ok raw ->
  WebApi.parse_led_line raw = None ->
  fst (run w (WebApi.get_leds path) st) = Raise (ValueError (UnexpectedLed raw)).
Proof.
  intros Hraw Hnone. unfold WebApi.get_leds. rewrite run_bind.
  destruct (run w (WebApi._send_recv_line path "GETLED") st) as [r st'].
  cbn [fst] in Hraw. subst r. now rewrite Hnone.
Qed.

(** C4, as worded, fails: the code also strips a colon that ends the
    line, so that "LED 1:" decodes to [1]. *)
Lemma decode_trailing_colon :
  WebApi.parse_led_line "LED 1:" = Some [1%Z] /\
  Spec.decodeLedReply "LED 1:" = None /\
  WebApi.parse_led_line "LED 1:" <> Spec.decodeLedReply "LED 1:".
Proof. repeat split. vm_compute. discriminate. Qed.

(** C4 (amended): for every reply line whose content starts, in any
    case, with LED, [parse_led_line] drops that prefix, strips colon,
    space and tab characters at both ends of the rest, replaces commas
    by spaces, splits on white space, keeps the tokens that are integers
    and maps each to 1 if nonzero, else 0 (server_combined_A.py returns
    the same sequence, the empty list standing for no value); and
    "LED 1,0,0", "LED: 1 0 0" and "led 1 0 0" all decode to [1,0,0]. *)
Theorem decode_led_reply (raw : string) :
  startswith (upper (strip raw)) "LED" = true ->
  (WebApi.parse_led_line raw = Spec.decodeLedReply_both_ends raw /\
   WebApi.parse_led_line raw =
     match map led_bit
             (Spec.parsed_ints
                (split (replace_char "," " "
                          (strip_by Spec.punct (drop 3 (strip raw)))))) with
     | [] => None
     | leds => Some leds
     end /\
   CombinedA.parse_led_line raw =
     map led_bit
       (Spec.parsed_ints
          (split (replace_char "," " "
                    (strip_by Spec.punct (drop 3 (strip raw))))))) /\
  (WebApi.parse_led_line "LED 1,0,0" = Some [1; 0; 0]%Z /\
   WebApi.parse_led_line "LED: 1 0 0" = Some [1; 0; 0]%Z /\
   WebApi.parse_led_line "led 1 0 0" = Some [1; 0; 0]%Z /\
   CombinedA.parse_led_line "LED 1,0,0" = [1; 0; 0]%Z /\
   CombinedA.parse_led_line "LED: 1 0 0" = [1; 0; 0]%Z /\
   CombinedA.parse_led_line "led 1 0 0" = [1; 0; 0]%Z).
Proof.
  intros Hled. split; [|repeat split].
  assert (Hweb : WebApi.parse_led_line raw =
     match map led_bit
             (Spec.parsed_ints
                (split (replace_char "," " "
                          (strip_by Spec.punct (drop 3 (strip raw)))))) with
     | [] => None
     | leds => Some leds
     end).
  { rewrite parse_led_line_both_ends.
    unfold Spec.decodeLedReply_both_ends, Spec.decodeLedReply_with.
    now rewrite Hled. }
  split; [apply parse_led_line_both_ends|]. split; [exact Hweb|].
  rewrite combined_parse_led_line_eq, Hweb. now destruct (map led_bit _).
Qed.

Lemma decode_led_reply_witness :
  startswith (upper (strip "LED: 1,0 2")) "LED" = true /\
  WebApi.parse_led_line "LED: 1,0 2" = Some [1; 0; 1]%Z.
Proof.
  split; [reflexivity|].
  destruct (decode_led_reply "LED: 1,0 2" eq_refl) as [[_ [H _]] _].
  rewrite H. reflexivity.
Defined.

(** ** server.py against web_api.py *)


(** C10, at its failing inputs: the inline decode of [GetLedState] in
    server.py and [parse_led_line] are not equivalent.  On the reply
    "led 1 0" the inline decode, which compares the first token with
    "LED" as it is written, returns the empty list where
    [parse_led_line] returns [1, 0]; on "LED 5 0" it returns the values
    as they are, [5, 0], where [parse_led_line] returns [1, 0]; on
    "LED: 1 0" and "LED 1,0", spellings that the docstring of
    [parse_led_line] lists, it returns the empty list and raises
    [ValueError].  So on these lines neither do both say that the line
    is no LED reply, nor do both return the same sequence, and
    [GetLedState] of server.py and of server_combined_A.py answer the
    same daemon differently. *)
Lemma decoders_disagree :
  (~ Spec.decoders_agree "led 1 0" /\ ~ Spec.decoders_agree "LED 5 0") /\
  (Server.decode_leds "led 1 0" = Ok [] /\
   WebApi.parse_led_line "led 1 0" = Some [1; 0]%Z /\
   CombinedA.parse_led_line "led 1 0" = [1; 0]%Z) /\
  (Server.decode_leds "LED 5 0" = Ok [5; 0]%Z /\
   WebApi.parse_led_line "LED 5 0" = Some [1; 0]%Z /\
   CombinedA.parse_led_line "LED 5 0" = [1; 0]%Z) /\
  (Server.decode_leds "LED: 1 0" = Ok [] /\
   WebApi.parse_led_line "LED: 1 0" = Some [1; 0]%Z) /\
  (Server.decode_leds "LED 1,0" = Raise (ValueError (InvalidLiteral "1,0")) /\
   WebApi.parse_led_line "LED 1,0" = Some [1; 0]%Z) /\
  (fst (run (answers_with "led 1 0") (Server.GetLedState 1 0) (fresh (Some 0)))
   = Ok (PbLedState []) /\
   fst (run (answers_with "led 1 0") (CombinedA.GetLedState 1 0)
          (fresh (Some 0)))
   = Ok (PbLedState [1; 0]%Z) /\
   fst (run (answers_with "LED 5 0") (Server.GetLedState 1 0) (fresh (Some 0)))
   = Ok (PbLedState [5; 0]%Z) /\
   fst (run (answers_with "LED 5 0") (CombinedA.GetLedState 1 0)
          (fresh (Some 0)))
   = Ok (PbLedState [1; 0]%Z)).
Proof.
  split; [|repeat split].
  split; intros [[H1 H2]|[leds [H1 H2]]]; vm_compute in H1, H2; congruence.
Qed.



(** ** Threads and the lock *)

















(** ** Two calls at once on a servicer *)

(** C1, on the gRPC servicers: [PressButton(0)] and [GetLedState()]
    called at once on one servicer of server.py (and of
    server_combined_A.py) send on the shared socket with no lock; both
    exchanges are in flight together, and when the second thread reads
    first, each call returns the reply meant for the other. *)
Theorem servicer_exchanges_interleave :
  let pool := [Server.PressButton 1 0 0; Server.GetLedState 1 0] in
  let poolA := [CombinedA.PressButton 1 0 0; CombinedA.GetLedState 1 0] in
  let start := idle (Some 0) in
  (sh_log (snd (exec two_replies [0; 1] pool start))
   = [(0, EvSend 0 ("PRESS 0" ++ String LF "") None);
      (1, EvSend 0 ("GETLED" ++ String LF "") None)] /\
   in_flight (sh_log (snd (exec two_replies [0; 1] pool start))) = [0; 1] /\
   exclusive (sh_log (snd (exec two_replies [0; 1] pool start))) = false /\
   fst (exec two_replies [0; 1; 1; 0] pool start)
   = [Ret (Ok (PbSimpleReply "LED 1 0")); Ret (Ok (PbLedState []))]) /\
  (in_flight (sh_log (snd (exec two_replies [0; 1] poolA start))) = [0; 1] /\
   exclusive (sh_log (snd (exec two_replies [0; 1] poolA start))) = false /\
   fst (exec two_replies [0; 1; 1; 0] poolA start)
   = [Ret (Ok (PbSimpleReply "LED 1 0")); Ret (Ok (PbLedState []))]).
Proof. vm_compute. repeat split. Qed.

(** ** The reply of an exchange *)








(** ** The exchange of server_combined_A.py *)

Lemma recv_line_trace (w : daemon) (c : conn) (fuel : nat) :
  forall (data : string) (st : client),
    Forall (is_recv_on c) (trace w (recv_line fuel c data) st) /\
    sock_attr (snd (run w (recv_line fuel c data) st)) = sock_attr st /\
    lock_held (snd (run w (recv_line fuel c data) st)) = lock_held st /\
    ticks st <= ticks (snd (run w (recv_line fuel c data) st)) /\
    forall e, fst (run w (recv_line fuel c data) st) = Raise e ->
              is_OSError e = true.
Proof.
  induction fuel as [|fuel IH]; intros data st; cbn [recv_line];
    destruct (endswith_char data LF);
    try (cbn; repeat split; [constructor | lia | discriminate]).
  unfold bind, sock_recv. cbn [andthen trace run].
  destruct (w (ticks st)) as [e|chunk]; cbn [recv_answer andthen raise ret].
  - cbn. repeat split; try lia.
    + repeat constructor. unfold is_recv_on. eauto.
    + now intros e' [= <-].
  - destruct (String.eqb chunk "").
    + cbn. repeat split; try lia; try discriminate.
      repeat constructor. unfold is_recv_on. eauto.
    + destruct (IH (data ++ chunk)%string
                  (note (EvRecv c 128 (inr chunk)) (tick st)))
        as (Ht & Hs & Hl & Hk & He).
      repeat split; try assumption.
      * constructor; [unfold is_recv_on; eauto | assumption].
      * cbn in Hk. lia.
Qed.

Lemma quiet_recvs (c c' : conn) (evs : list event) :
  Forall (is_recv_on c) evs -> c' <> c ->
  sent evs = [] /\ closes evs = 0 /\ attempts evs = 0 /\
  untouched c' evs = true.
Proof.
  intros H Hne. induction H as [|ev evs (b & got & ->) _ IH];
    [repeat split|].
  destruct IH as (Hs & Hc & Ha & Hu).
  cbn [sent closes attempts untouched forallb touches].
  fold (untouched c' evs). rewrite Hu.
  apply Nat.eqb_neq in Hne. rewrite Nat.eqb_sym, Hne. auto.
Qed.

(** [send_cmd] on the socket [c]: one write of the framed command, then
    reads, all on [c]; and what it raises is an [OSError]. *)
Lemma send_cmd_run (w : daemon) (fuel : nat) (c : conn) (cmd : string)
  (st : client) :
  let x := run w (CombinedA.send_cmd fuel c cmd) st in
  let evs := events_of w (CombinedA.send_cmd fuel c cmd) st in
  (exists recvs,
     evs = EvSend c (with_newline cmd) (err_of (w (ticks st))) :: recvs /\
     Forall (is_recv_on c) recvs) /\
  sock_attr (snd x) = sock_attr st /\
  lock_held (snd x) = lock_held st /\
  ticks st < ticks (snd x) /\
  (forall e, fst x = Raise e -> is_OSError e = true).
Proof.
  cbv zeta. rewrite events_of_trace. unfold CombinedA.send_cmd, bind, sock_sendall.
  cbn [andthen trace run].
  destruct (w (ticks st)) as [e|t]; cbn [err_of andthen raise ret].
  - cbn. repeat split; try lia; eauto. now intros e' [= <-].
  - rewrite trace_andthen, run_andthen. unfold after.
    set (st1 := note (EvSend c (with_newline cmd) None) (tick st)).
    destruct (recv_line_trace w c fuel "" st1) as (Ht & Hs & Hl & Hk & He).
    destruct (run w (recv_line fuel c "") st1) as [[data|e|] st2];
      cbn [fst snd] in *; unfold ret; cbn [run trace fst snd];
      rewrite app_nil_r; unfold st1 in *; cbn in Hs, Hl, Hk;
      repeat split; eauto; try lia; try discriminate.
Qed.

Lemma send_cmd_attr_run (w : daemon) (fuel : nat) (c : conn) (line : string)
  (st : client) :
  sock_attr st = Some c ->
  run w (CombinedA.send_cmd_attr fuel line) st
  = run w (CombinedA.send_cmd fuel c line) st.
Proof. intros Hs. unfold CombinedA.send_cmd_attr. cbn [run]. now rewrite Hs. Qed.

(** [_send_recv] on a client that has a socket and a free lock. *)
Lemma combined_send_recv_run (w : daemon) (fuel : nat) (line : string)
  (st : client) (c : conn) :
  lock_held st = false -> sock_attr st = Some c ->
  let st0 := note EvLock (set_lock true st) in
  let first := run w (CombinedA.send_cmd fuel c line) st0 in
  run w (CombinedA._send_recv fuel line) st =
  match fst first with
  | Raise _ =>
      let st1 := note (EvClose c) (snd first) in
      let n := ticks st1 in
      match w n with
      | Fails e' =>
          (Raise (OSError e'),
           note EvUnlock
             (set_lock false (note (EvConnect n (Some e')) (tick st1))))
      | Gives _ =>
          released
            (run w (CombinedA.send_cmd fuel n line)
               (set_sock (Some n) (note (EvConnect n None) (tick st1))))
      end
  | _ => released first
  end.
Proof.
  intros Hl Hs st0 first. unfold CombinedA._send_recv.
  rewrite run_with_lock by assumption. fold st0.
  assert (Hs0 : sock_attr st0 = Some c) by exact Hs.
  rewrite run_try_except, run_bind. cbn [run bind andthen ret].
  rewrite Hs0. cbn [assert_not_None ret run].
  rewrite (send_cmd_attr_run _ _ _ _ _ Hs0). fold first.
  destruct (send_cmd_run w fuel c line st0) as (_ & Hs1 & _ & _ & He).
  fold first in Hs1, He. unfold released.
  destruct first as [[v|e|] st1]; cbn [fst snd] in *; try reflexivity.
  rewrite (He e eq_refl). rewrite run_bind. unfold try_finally.
  cbn [andthen run]. rewrite Hs1, Hs0. cbn [andthen run ret].
  rewrite run_andthen, CombinedA_connect_run. unfold after.
  cbn [ticks note]. destruct (w (ticks st1)) as [e'|t'];
    cbn [fst snd run]; [reflexivity|].
  rewrite (send_cmd_attr_run _ _ (ticks st1)) by reflexivity.
  now destruct (run w (CombinedA.send_cmd fuel (ticks st1) line) _) as [[v|e2|] st4].
Qed.

Lemma send_cmd_events (w : daemon) (fuel : nat) (c c' : conn) (cmd : string)
  (st : client) :
  c' <> c ->
  let evs := events_of w (CombinedA.send_cmd fuel c cmd) st in
  sent evs = [with_newline cmd] /\ closes evs = 0 /\ attempts evs = 0 /\
  untouched c' evs = true.
Proof.
  intros Hne. cbv zeta.
  destruct (send_cmd_run w fuel c cmd st) as ((recvs & -> & Hr) & _).
  destruct (quiet_recvs c c' recvs Hr Hne) as (Hs & Hc & Ha & Hu).
  cbn [sent closes attempts untouched forallb touches].
  fold (untouched c' recvs). rewrite Hs, Hc, Ha, Hu.
  apply Nat.eqb_neq in Hne. rewrite Nat.eqb_sym, Hne. auto.
Qed.

(** The retry of [_send_recv] of server_combined_A.py after a failed
    first exchange. *)
Lemma combined_retry_once (w : daemon) (fuel : nat) (line : string)
  (st : client) (c : conn) (e : exn) :
  lock_held st = false -> sock_attr st = Some c -> c < ticks st ->
  let st0 := note EvLock (set_lock true st) in
  let first := run w (CombinedA.send_cmd fuel c line) st0 in
  fst first = Raise e ->
  let st1 := note (EvClose c) (snd first) in
  let n := ticks st1 in
  let r := fst (run w (CombinedA._send_recv fuel line) st) in
  let evs := events_of w (CombinedA._send_recv fuel line) st in
  exists post,
    evs = EvLock :: events_of w (CombinedA.send_cmd fuel c line) st0
            ++ EvClose c :: post /\
    closes evs = 1 /\
    untouched c post = true /\
    attempts post = 1 /\
    sends evs <= 2 /\
    match w n with
    | Fails e' => r = Raise (OSError e') /\ sent post = []
    | Gives _ =>
        n <> c /\ sent post = [with_newline line] /\
        r = fst (run w (CombinedA.send_cmd fuel n line)
                   (set_sock (Some n) (note (EvConnect n None) (tick st1))))
    end.
Proof.
  intros Hl Hs Hc st0 first Hfirst st1 n r evs.
  assert (Hev : forall l,
             log (snd (run w (CombinedA._send_recv fuel line) st))
             = log st ++ l -> evs = l).
  { intros l Hlog. now apply events_of_eq. }
  subst r. clearbody evs.
  rewrite (combined_send_recv_run w fuel line st c Hl Hs) in *.
  fold st0 first in Hev |- *. rewrite Hfirst in *. cbv zeta in Hev |- *.
  fold st1 n in Hev |- *.
  pose proof (run_log w (CombinedA.send_cmd fuel c line) st0) as Hlog1.
  fold first in Hlog1.
  destruct (send_cmd_run w fuel c line st0) as (_ & _ & _ & Ht1 & _).
  fold first in Ht1.
  assert (Hne0 : S c <> c) by lia.
  destruct (send_cmd_events w fuel c (S c) line st0 Hne0) as (Hsent1 & Hcl1 & _).
  cbv zeta in Hsent1, Hcl1.
  set (ev1 := events_of w (CombinedA.send_cmd fuel c line) st0) in *.
  clearbody ev1.
  assert (Hlog0 : log st0 = log st ++ [EvLock]) by reflexivity.
  assert (Hlogc : log st1 = log st ++ EvLock :: ev1 ++ [EvClose c]).
  { unfold st1. cbn [note log]. rewrite Hlog1, Hlog0.
    now rewrite <- !app_assoc. }
  assert (Hn : n <> c) by (unfold n, st1, st0 in *; cbn in *; lia).
  destruct (w n) as [e'|t'].
  - exists [EvConnect n (Some e'); EvUnlock].
    assert (evs = EvLock :: ev1 ++ [EvClose c; EvConnect n (Some e'); EvUnlock])
      as ->.
    { apply Hev. cbn [snd note set_lock tick log]. rewrite Hlogc.
      rewrite <- !app_assoc. cbn [app]. now rewrite <- !app_assoc. }
    repeat split; try reflexivity.
    + cbn [closes]. rewrite closes_app, Hcl1. reflexivity.
    + unfold sends. cbn [sent]. rewrite sent_app, Hsent1. cbn. lia.
  - set (st3 := set_sock (Some n) (note (EvConnect n None) (tick st1))) in *.
    pose proof (run_log w (CombinedA.send_cmd fuel n line) st3) as Hlog4.
    destruct (send_cmd_events w fuel n c line st3 (not_eq_sym Hn))
      as (Hsent4 & Hcl4 & Ha4 & Hu4).
    cbv zeta in Hsent4, Hcl4, Ha4, Hu4.
    set (ev4 := events_of w (CombinedA.send_cmd fuel n line) st3) in *.
    clearbody ev4.
    assert (Hlog3 : log st3 = log st ++ EvLock :: ev1
                              ++ [EvClose c; EvConnect n None]).
    { unfold st3. cbn [set_sock note tick log]. rewrite Hlogc.
      rewrite <- !app_assoc. cbn [app]. now rewrite <- !app_assoc. }
    assert (Hconn : untouched c [EvConnect n None] = true).
    { unfold untouched. cbn [forallb touches].
      apply Nat.eqb_neq in Hn. now rewrite Hn. }
    unfold released in *.
    destruct (run w (CombinedA.send_cmd fuel n line) st3) as [[v|e2|] st4];
      cbn [fst snd] in *.
    + exists (EvConnect n None :: ev4 ++ [EvUnlock]).
      assert (evs = EvLock :: ev1 ++ EvClose c :: EvConnect n None
                      :: ev4 ++ [EvUnlock]) as ->.
      { apply Hev. cbn [note set_lock log]. rewrite Hlog4, Hlog3.
        rewrite <- !app_assoc. cbn [app]. now rewrite <- !app_assoc. }
      repeat split; try assumption.
      * cbn [closes]. rewrite closes_app, Hcl1. cbn [closes].
        now rewrite closes_app, Hcl4.
      * change (EvConnect n None :: ev4 ++ [EvUnlock])
          with ([EvConnect n None] ++ ev4 ++ [EvUnlock]).
        now rewrite !untouched_app, Hconn, Hu4.
      * cbn [attempts]. now rewrite attempts_app, Ha4.
      * unfold sends. cbn [sent]. rewrite sent_app, Hsent1. cbn [sent app].
        rewrite sent_app, Hsent4. cbn. lia.
      * cbn [sent]. now rewrite sent_app, Hsent4.
    + exists (EvConnect n None :: ev4 ++ [EvUnlock]).
      assert (evs = EvLock :: ev1 ++ EvClose c :: EvConnect n None
                      :: ev4 ++ [EvUnlock]) as ->.
      { apply Hev. cbn [note set_lock log]. rewrite Hlog4, Hlog3.
        rewrite <- !app_assoc. cbn [app]. now rewrite <- !app_assoc. }
      repeat split; try assumption.
      * cbn [closes]. rewrite closes_app, Hcl1. cbn [closes].
        now rewrite closes_app, Hcl4.
      * change (EvConnect n None :: ev4 ++ [EvUnlock])
          with ([EvConnect n None] ++ ev4 ++ [EvUnlock]).
        now rewrite !untouched_app, Hconn, Hu4.
      * cbn [attempts]. now rewrite attempts_app, Ha4.
      * unfold sends. cbn [sent]. rewrite sent_app, Hsent1. cbn [sent app].
        rewrite sent_app, Hsent4. cbn. lia.
      * cbn [sent]. now rewrite sent_app, Hsent4.
    + exists (EvConnect n None :: ev4).
      assert (evs = EvLock :: ev1 ++ EvClose c :: EvConnect n None :: ev4)
        as ->.
      { apply Hev. rewrite Hlog4, Hlog3.
        rewrite <- !app_assoc. cbn [app]. now rewrite <- ?app_assoc. }
      repeat split; try assumption.
      * cbn [closes]. rewrite closes_app, Hcl1. cbn [closes].
        now rewrite Hcl4.
      * change (EvConnect n None :: ev4) with ([EvConnect n None] ++ ev4).
        now rewrite !untouched_app, Hconn, Hu4.
      * cbn [attempts]. now rewrite Ha4.
      * unfold sends. cbn [sent]. rewrite sent_app, Hsent1. cbn [sent app].
        rewrite Hsent4. cbn. lia.
Qed.


(** ** Retry after an I/O error *)

(** C2: when the write or the read of an exchange raises an I/O error,
    the client closes the connection [c] once and does not use it
    again, reconnects, and sends the command again once, on the new
    connection, so that at most two writes are made in all; when the
    reconnection fails, or that second exchange fails, its error is the
    result of the call, with no further attempt.  In web_api.py the
    reconnection is [_ensure_conn] and the socket attribute is [None]
    in between; in server_combined_A.py it is one call of [_connect]. *)
Theorem retry_once (w : daemon) (st : client) (c : conn) :
  lock_held st = false -> sock_attr st = Some c -> c < ticks st ->
  let st0 := note EvLock (set_lock true st) in
  (forall path line e,
     let data := with_newline line in
     let first := run w (exchange c data WebApi.RECV_BUFSZ) st0 in
     fst first = Raise (OSError e) ->
     let st2 := set_sock None (note (EvClose c) (snd first)) in
     let again := run w (WebApi._ensure_conn path) st2 in
     let r := fst (run w (WebApi._send_recv_line path line) st) in
     let evs := events_of w (WebApi._send_recv_line path line) st in
     exists post,
       evs = EvLock :: events_of w (exchange c data WebApi.RECV_BUFSZ) st0
               ++ EvClose c :: post /\
       closes evs = 1 /\
       untouched c post = true /\
       sends evs <= 2 /\
       match fst again with
       | Ok _ =>
           exists c', sock_attr (snd again) = Some c' /\ c' <> c /\
             sent post = [data] /\
             match fst (run w (exchange c' data WebApi.RECV_BUFSZ)
                          (snd again)) with
             | Ok resp =>
                 r = if String.eqb resp ""
                     then Raise (ConnectionError EmptyResponse)
                     else Ok (strip resp)
             | Raise e' => r = Raise e'
             | Unfinished => False
             end
       | Raise e' =>
           r = Raise e' /\ sent post = [] /\ exists m, e' = ConnectionError m
       | Unfinished => False
       end) /\
  (forall fuel line e,
     let first := run w (CombinedA.send_cmd fuel c line) st0 in
     fst first = Raise e ->
     let st1 := note (EvClose c) (snd first) in
     let n := ticks st1 in
     let r := fst (run w (CombinedA._send_recv fuel line) st) in
     let evs := events_of w (CombinedA._send_recv fuel line) st in
     exists post,
       evs = EvLock :: events_of w (CombinedA.send_cmd fuel c line) st0
               ++ EvClose c :: post /\
       closes evs = 1 /\
       untouched c post = true /\
       attempts post = 1 /\
       sends evs <= 2 /\
       match w n with
       | Fails e' => r = Raise (OSError e') /\ sent post = []
       | Gives _ =>
           n <> c /\ sent post = [with_newline line] /\
           r = fst (run w (CombinedA.send_cmd fuel n line)
                      (set_sock (Some n)
                         (note (EvConnect n None) (tick st1))))
       end).
Proof.
  intros Hl Hs Hc st0. split.
  - intros path line e. now apply web_retry_once.
  - intros fuel line e. now apply combined_retry_once.
Qed.

Lemma retry_once_witness :
  lock_held connected = false /\ sock_attr connected = Some 0 /\
  0 < ticks connected /\
  fst (run breaks_once (WebApi._send_recv_line WebApi.SOCK_PATH "PRESS 0")
         connected) = Ok "OK" /\
  closes (events_of breaks_once
            (WebApi._send_recv_line WebApi.SOCK_PATH "PRESS 0") connected) = 1 /\
  closes (events_of breaks_once (CombinedA._send_recv 1 "PRESS 0") connected)
  = 1.
Proof.
  split; [reflexivity|]. split; [reflexivity|]. split; [apply Nat.lt_0_1|].
  split; [reflexivity|]. split.
  - destruct (retry_once breaks_once connected 0 eq_refl eq_refl Nat.lt_0_1)
      as [H _].
    destruct (H WebApi.SOCK_PATH "PRESS 0" BrokenPipeError eq_refl)
      as (post & _ & Hc & _).
    exact Hc.
  - destruct (retry_once breaks_once connected 0 eq_refl eq_refl Nat.lt_0_1)
      as [_ H].
    destruct (H 1 "PRESS 0" (OSError BrokenPipeError) eq_refl)
      as (post & _ & Hc & _).
    exact Hc.
Defined.


Lemma wire_lines_witness :
  (0 <= 1)%Z /\
  Forall (eq ("PRESS 1" ++ String LF "")%string)
    (sent (events_of (answers_with "OK") (WebApi.press WebApi.SOCK_PATH 1)
             (fresh (Some 0)))) /\
  Forall (eq ("STEP 2 10" ++ String LF "")%string)
    (sent (events_of (answers_with "OK") (CombinedA.step 1 2 10)
             (fresh (Some 0)))) /\
  writes_first
    (events_of (answers_with "OK") (CombinedA.release 1 1) (fresh (Some 0)))
    0 ("RELEASE 1" ++ String LF "") /\
  writes_before_return ("STEP 2 10" ++ String LF "") (CombinedA.step 1 2 10).
Proof.
  split; [apply Z.le_0_1|].
  destruct (wire_lines (answers_with "OK") (fresh (Some 0)) WebApi.SOCK_PATH
              1 1%Z 2%Z 10%Z Z.le_0_1)
    as ((Hp & _) & (_ & _ & _ & Hs) & _ & _ & _ & _ & _ & Hf & _
        & (_ & _ & _ & Hw) & _).
  destruct (Hf 0 eq_refl eq_refl) as (_ & _ & Hr & _).
  split; [exact Hp|]. split; [exact Hs|]. split; [exact Hr | exact Hw].
Defined.

Lemma http_status_codes_witness :
  (400 <= 422 < 500)%Z /\ lock_held (fresh None) = false /\
  fst (route_health refusing (fresh None))
  = Some (ErrorResponse 503
            (Some (DaemonNotReady
                     (ConnectionError
                        (CannotConnect WebApi.SOCK_PATH
                           (Some (OSError ConnectionRefusedError))))))) /\
  route_button 422 refusing (WebApi.mkButtonReq (-1) "press") (fresh None)
  = (Some (ErrorResponse 422 None), fresh None).
Proof.
  assert (Hv : (400 <= 422 < 500)%Z) by (split; [discriminate | reflexivity]).
  split; [exact Hv|]. split; [reflexivity|].
  destruct (http_status_codes 422 refusing (fresh None) Hv eq_refl)
    as ((Hh & _) & _ & _ & _ & Hb & _).
  split.
  - rewrite Hh. reflexivity.
  - apply Hb. left. reflexivity.
Defined.

(** ** The servicers and the reply *)

(** C5, on the gRPC servicers: a reply that is not an LED line ("ERR"),
    and an LED line without an integer ("LED"), are decoded to the empty
    list by [parse_led_line] of server_combined_A.py and by the inline
    decoder of server.py, and [GetLedState] returns that empty list of
    LEDs as a result in both files; on the same replies
    [parse_led_line] of web_api.py returns [None], and [get_leds] of
    web_api.py and of server_combined_A.py raises [ValueError]. *)
Theorem servicer_led_state_empty (fuel : nat) :
  let led_state := fun w => fst (run w (CombinedA.GetLedState (S fuel) 0)
                                   (fresh (Some 0))) in
  let led_state' := fun w => fst (run w (Server.GetLedState (S fuel) 0)
                                    (fresh (Some 0))) in
  let web := fun w => fst (run w (WebApi.get_leds WebApi.SOCK_PATH)
                             (fresh (Some 0))) in
  let http := fun w => fst (run w (CombinedA.get_leds (S fuel))
                              (fresh (Some 0))) in
  (CombinedA.parse_led_line "ERR" = [] /\
   CombinedA.parse_led_line "LED" = [] /\
   Server.decode_leds "ERR" = Ok [] /\
   Server.decode_leds "LED" = Ok []) /\
  (led_state (answers_with "ERR") = Ok (PbLedState []) /\
   led_state (answers_with "LED") = Ok (PbLedState []) /\
   led_state' (answers_with "ERR") = Ok (PbLedState []) /\
   led_state' (answers_with "LED") = Ok (PbLedState [])) /\
  (WebApi.parse_led_line "ERR" = None /\
   WebApi.parse_led_line "LED" = None /\
   web (answers_with "ERR") = Raise (ValueError (UnexpectedLed "ERR")) /\
   web (answers_with "LED") = Raise (ValueError (UnexpectedLed "LED")) /\
   http (answers_with "ERR") = Raise (ValueError (UnexpectedLed "ERR")) /\
   http (answers_with "LED") = Raise (ValueError (UnexpectedLed "LED"))).
Proof. destruct fuel; repeat split. Qed.

(** C6, on server.py: the inline decoder of [GetLedState] raises on
    text that [parse_led_line] takes.  A token after "LED" that is not
    an integer literal raises [ValueError] from [int]; a reply without
    any token, such as the empty text of a closed connection, raises
    [IndexError] from [parts[0]]; and [GetLedState] raises with it.
    On the same texts [parse_led_line] of web_api.py returns a list or
    [None], and that of server_combined_A.py a list. *)
Theorem server_decoder_raises (fuel : nat) :
  let led_state := fun w => fst (run w (Server.GetLedState (S fuel) 0)
                                   (fresh (Some 0))) in
  (Server.decode_leds "LED 1 x" = Raise (ValueError (InvalidLiteral "x")) /\
   Server.decode_leds "LED 1,0" = Raise (ValueError (InvalidLiteral "1,0")) /\
   Server.decode_leds "" = Raise IndexError /\
   Server.decode_leds "   " = Raise IndexError) /\
  (led_state (answers_with "LED 1 x")
   = Raise (ValueError (InvalidLiteral "x")) /\
   led_state hangs_up = Raise IndexError) /\
  (WebApi.parse_led_line "LED 1 x" = Some [1]%Z /\
   WebApi.parse_led_line "LED 1,0" = Some [1; 0]%Z /\
   WebApi.parse_led_line "" = None /\
   WebApi.parse_led_line "   " = None /\
   CombinedA.parse_led_line "LED 1 x" = [1]%Z /\
   CombinedA.parse_led_line "" = []).
Proof. destruct fuel; repeat split. Qed.

(** C8, on server_combined_A.py and server.py: when the daemon closes
    the connection after the command, so that the read returns no byte,
    [send_cmd] leaves its loop and returns the empty text.  [press] of
    the HTTP client and [PressButton] of both servicers return it as
    their result, and [GetLedState] of server_combined_A.py returns an
    empty list of LEDs; no error is raised.  On the same daemon
    [press] of web_api.py raises the empty-reply [ConnectionError], and
    [get_leds] of server_combined_A.py raises [ValueError]. *)
Theorem empty_reply_returned (fuel : nat) (idx : Z) :
  let st := fresh (Some 0) in
  (fst (run hangs_up (CombinedA.send_cmd (S fuel) 0 "GETLED") st) = Ok "" /\
   fst (run hangs_up (CombinedA.press (S fuel) idx) st) = Ok "" /\
   fst (run hangs_up (CombinedA.release (S fuel) idx) st) = Ok "" /\
   fst (run hangs_up (CombinedA.PressButton (S fuel) 0 idx) st)
   = Ok (PbSimpleReply "") /\
   fst (run hangs_up (CombinedA.GetLedState (S fuel) 0) st)
   = Ok (PbLedState []) /\
   fst (run hangs_up (Server.PressButton (S fuel) 0 idx) st)
   = Ok (PbSimpleReply "")) /\
  (received (events_of hangs_up (CombinedA.press (S fuel) idx) st) = [""] /\
   received (events_of hangs_up (WebApi.press WebApi.SOCK_PATH idx) st)
   = [""]) /\
  (fst (run hangs_up (WebApi.press WebApi.SOCK_PATH idx) st)
   = Raise (ConnectionError EmptyResponse) /\
   fst (run hangs_up (WebApi.get_leds WebApi.SOCK_PATH) st)
   = Raise (ConnectionError EmptyResponse) /\
   fst (run hangs_up (CombinedA.get_leds (S fuel)) st)
   = Raise (ValueError (UnexpectedLed ""))).
Proof. repeat split. Qed.

(* ================================================================== *)
(** * Further properties of the code                                   *)
(* ================================================================== *)

(** ** Integers and tokens of a LED line *)





Section Trim.
Variable q : ascii -> bool.










End Trim.


Lemma all_chars_append (P : ascii -> Prop) (s t : string) :
  all_chars P (s ++ t) <-> all_chars P s /\ all_chars P t.
Proof.
  induction s as [|c s IH]; cbn [append all_chars]; [tauto|].
  rewrite IH. tauto.
Qed.


Lemma split_scan_space (ws s : string) :
  ws <> "" -> all_chars (fun c => isspace c = true) ws ->
  split_scan (ws ++ s) = ("", split s).
Proof.
  induction ws as [|c ws IH]; [intros H; now elim H|].
  intros _ [Hc Hw]. cbn [append split_scan]. rewrite Hc.
  destruct ws as [|d ws].
  - cbn [append]. unfold split. now destruct (split_scan s).
  - rewrite IH by (discriminate || exact Hw).
    reflexivity.
Qed.

Lemma split_space (ws s : string) :
  all_chars (fun c => isspace c = true) ws -> split (ws ++ s) = split s.
Proof.
  intros Hw. destruct ws as [|c ws]; [reflexivity|].
  unfold split at 1. rewrite split_scan_space by (discriminate || exact Hw).
  reflexivity.
Qed.

























(** ** The lock and the socket around a call *)















(** ** Replies in chunks, the servicers, and LED lines end to end *)















(** ** Requests served at once *)



















(** ** The HTTP front end of server_combined_A.py *)


